(** * gen_benchmark_report.py: the CSV-to-Markdown gas report

    A shallow embedding of the script [src/gen_benchmark_report.py] and the
    properties of its aggregation and rendering.

    Python values are modelled as follows.
    - [str] is a list of code points ([pystr]); [len] is [length], [+] is
      [++], comparison is lexicographic on code points.
    - [int] is [Z]; Python integers do not wrap.
    - [None] next to a [str] is [option pystr].
    - [dict] and [set] are stdpp's [gmap] and [gset]: the script never
      depends on insertion order, every iteration whose order could matter
      goes through [sorted].
    - a raised exception ends the script: the error monad [res]. *)

From Stdlib Require Import ZArith String Ascii List Decimal DecimalPos DecimalZ.
From stdpp Require Import base tactics option list gmap sorting.
Import ListNotations.

Local Open Scope Z_scope.

(** ** Text *)

Abbreviation pystr := (list N).

(** A literal of the script, as code points. *)
Definition str (s : string) : pystr :=
  map N_of_ascii (list_ascii_of_string s).

(** [sep.join(parts)]. *)
Fixpoint join (sep : pystr) (parts : list pystr) : pystr :=
  match parts with
  | [] => []
  | [p] => p
  | p :: rest => p ++ sep ++ join sep rest
  end.

(** [c * n] for a one-character string [c]. *)
Definition repeat_char (c : N) (n : nat) : pystr := replicate n c.

(** [a < b] on [str]: code point by code point, a proper prefix first. *)
Fixpoint str_ltb (a b : pystr) : bool :=
  match a, b with
  | _, [] => false
  | [], _ :: _ => true
  | x :: a', y :: b' =>
      if (x <? y)%N then true
      else if (x =? y)%N then str_ltb a' b'
      else false
  end.

Definition str_lt (a b : pystr) : Prop := str_ltb a b = true.
(** The order [sorted] works with: [b] does not come before [a]. *)
Definition str_le (a b : pystr) : Prop := str_ltb b a = false.

#[global] Instance str_lt_dec a b : Decision (str_lt a b).
Proof. unfold str_lt. apply _. Defined.
#[global] Instance str_le_dec a b : Decision (str_le a b).
Proof. unfold str_le. apply _. Defined.

(** ** Integers as text *)

Definition digit_char (d : N) : N := (48 + d)%N.

(** The digits of a decimal numeral, most significant first. *)
Fixpoint uint_chars (u : Decimal.uint) : pystr :=
  match u with
  | Nil => []
  | D0 u => digit_char 0 :: uint_chars u
  | D1 u => digit_char 1 :: uint_chars u
  | D2 u => digit_char 2 :: uint_chars u
  | D3 u => digit_char 3 :: uint_chars u
  | D4 u => digit_char 4 :: uint_chars u
  | D5 u => digit_char 5 :: uint_chars u
  | D6 u => digit_char 6 :: uint_chars u
  | D7 u => digit_char 7 :: uint_chars u
  | D8 u => digit_char 8 :: uint_chars u
  | D9 u => digit_char 9 :: uint_chars u
  end.

(** The decimal digits of [|z|]; ["0"] for zero. *)
Definition abs_digits (z : Z) : pystr :=
  match Z.to_int z with
  | Decimal.Pos u => uint_chars u
  | Decimal.Neg u => uint_chars u
  end.

Definition sign_chars (z : Z) : pystr :=
  if z <? 0 then str "-" else [].

(** [f"{z}"], that is [str(z)].  Every integer that the script prints
    came out of [int], so it is within the limit that the interpreter
    puts on the number of digits of a conversion. *)
Definition format_int (z : Z) : pystr := sign_chars z ++ abs_digits z.

(** Grouping by three on digits given least significant first: a comma
    goes after every third digit that has a digit after it. *)
Fixpoint group3 (l : pystr) : pystr :=
  match l with
  | a :: b :: c :: ((_ :: _) as rest) =>
      a :: b :: c :: 44%N :: group3 rest
  | _ => l
  end.

(** [f"{z:,}"]: the sign, then the digits in groups of three from the
    right. *)
Definition format_thousands (z : Z) : pystr :=
  sign_chars z ++ reverse (group3 (reverse (abs_digits z))).

(** ** Exceptions *)

Inductive exn := KeyError | TypeError | ValueError.

Inductive res (A : Type) : Type :=
| Ok (a : A)
| Raise (e : exn).
Arguments Ok {A} a.
Arguments Raise {A} e.

#[global] Instance res_ret : MRet res := fun A a => Ok a.
#[global] Instance res_bind : MBind res := fun A B f m =>
  match m with
  | Ok a => f a
  | Raise e => Raise e
  end.

(** ** The builtin [int] on ASCII text

    [int(s)] in base ten: optional white space, an optional sign, digits
    with single underscores between them, optional white space.  This
    function covers text whose digits and spaces are ASCII, which is what
    the examples below use; the script itself is modelled over an
    arbitrary [parse_int], so that the general theorems do not depend on
    which strings the interpreter accepts (digits and spaces outside
    ASCII, its limit on the number of digits). *)

Definition is_space (c : N) : bool :=
  ((9 <=? c) && (c <=? 13) || (c =? 32))%N.

Definition digit_val (c : N) : option Z :=
  if ((48 <=? c) && (c <=? 57))%N then Some (Z.of_N c - 48) else None.

Fixpoint lstrip (s : pystr) : pystr :=
  match s with
  | c :: s' => if is_space c then lstrip s' else s
  | [] => []
  end.

(** Digits after the first one.  [acc] is the value so far; [us] tells
    that the previous character was an underscore, which must be followed
    by a digit.  What is left after the numeral must be white space. *)
Fixpoint int_digits (acc : Z) (us : bool) (s : pystr) : option Z :=
  match s with
  | [] => if us then None else Some acc
  | c :: s' =>
      match digit_val c with
      | Some d => int_digits (10 * acc + d) false s'
      | None =>
          if us then None
          else if (c =? 95)%N then int_digits acc true s'
          else match lstrip s with [] => Some acc | _ => None end
      end
  end.

Definition int_unsigned (s : pystr) : option Z :=
  match s with
  | c :: s' =>
      match digit_val c with
      | Some d => int_digits d false s'
      | None => None
      end
  | [] => None
  end.

Definition int_ascii (s : pystr) : option Z :=
  match lstrip s with
  | c :: s' =>
      if (c =? 45)%N then Z.opp <$> int_unsigned s'
      else if (c =? 43)%N then int_unsigned s'
      else int_unsigned (c :: s')
  | [] => None
  end.

(** ** [csv.DictReader]

    The input is what [csv.reader] yields for [benchmark.csv]: one list of
    fields per line, the header line first.  [DictReader] takes the first
    line as the field names, skips every later line without fields, and
    turns each other line into a dict: the fields are paired with the
    names in order, a name without a field gets [None], and fields beyond
    the names go under the key [None], which the script never reads. *)

Abbreviation csv_line := (list pystr).
Abbreviation row_dict := (gmap pystr (option pystr)).

Fixpoint zip_fields (fieldnames : list pystr) (row : csv_line)
  : list (pystr * option pystr) :=
  match fieldnames, row with
  | [], _ => []
  | k :: ks, [] => (k, None) :: zip_fields ks []
  | k :: ks, v :: vs => (k, Some v) :: zip_fields ks vs
  end.

(** A name that occurs twice keeps the later entry. *)
Definition make_row (fieldnames : list pystr) (row : csv_line) : row_dict :=
  fold_left (fun d kv => <[kv.1 := kv.2]> d) (zip_fields fieldnames row) ∅.

Definition is_blank (row : csv_line) : bool :=
  match row with [] => true | _ => false end.

Definition DictReader (lines : list csv_line) : list row_dict :=
  match lines with
  | [] => []
  | fieldnames :: rows =>
      make_row fieldnames <$> List.filter (fun r => negb (is_blank r)) rows
  end.

(** ** The aggregation

    [data[function][(selectors, facets)][implementation] = gas]. *)

Abbreviation impl_dict := (gmap (option pystr) Z).
Abbreviation rows_dict := (gmap (Z * Z) (gmap (option pystr) Z)).
Abbreviation data_dict :=
  (gmap (option pystr) (gmap (Z * Z) (gmap (option pystr) Z))).

(** [d[k]] on a [defaultdict]: a missing key is first bound to the
    default.  The value and the dict after the access. *)
Definition defaultdict_get `{Countable K} {V} (dflt : V) (d : gmap K V) (k : K)
  : V * gmap K V :=
  match d !! k with
  | Some v => (v, d)
  | None => (dflt, <[k := dflt]> d)
  end.

(** [data[func][key][impl] = gas], both lookups on a [defaultdict]. *)
Definition data_set (data : data_dict) (func : option pystr) (key : Z * Z)
    (impl : option pystr) (gas : Z) : data_dict :=
  let '(rows, data1) := defaultdict_get (∅ : rows_dict) data func in
  let '(impls, rows1) := defaultdict_get (∅ : impl_dict) rows key in
  <[func := <[key := <[impl := gas]> impls]> rows1]> data1.

Section Script.

(** The builtin [int] on a [str]: [None] where it raises [ValueError]. *)
Variable parse_int : pystr -> option Z.

(** [row[name]]. *)
Definition getitem (row : row_dict) (name : pystr) : res (option pystr) :=
  match row !! name with
  | Some v => Ok v
  | None => Raise KeyError
  end.

(** [int(v)]: [TypeError] on [None], [ValueError] on text that is not a
    numeral. *)
Definition int (v : option pystr) : res Z :=
  match v with
  | None => Raise TypeError
  | Some s =>
      match parse_int s with
      | Some z => Ok z
      | None => Raise ValueError
      end
  end.

(** The body of the loop over the reader. *)
Definition ingest_row (data : data_dict) (row : row_dict) : res data_dict :=
  impl ← getitem row (str "Implementation");
  func ← getitem row (str "Function");
  facets ← getitem row (str "Facets") ≫= int;
  selectors ← getitem row (str "Selectors") ≫= int;
  gas ← getitem row (str "GasUsed") ≫= int;
  Ok (data_set data func (selectors, facets) impl gas).

(** The loop: the first exception ends it. *)
Fixpoint ingest_from (data : data_dict) (rows : list row_dict) : res data_dict :=
  match rows with
  | [] => Ok data
  | row :: rest => data' ← ingest_row data row; ingest_from data' rest
  end.

Definition ingest (lines : list csv_line) : res data_dict :=
  ingest_from ∅ (DictReader lines).

End Script.

(** ** Rendering *)

(** Tuples of two integers compare on the first component, then on the
    second. *)
Definition key_lt (a b : Z * Z) : Prop :=
  a.1 < b.1 ∨ (a.1 = b.1 ∧ a.2 < b.2).
Definition key_le (a b : Z * Z) : Prop := ¬ key_lt b a.

#[global] Instance key_lt_dec a b : Decision (key_lt a b).
Proof. unfold key_lt. apply _. Defined.
#[global] Instance key_le_dec a b : Decision (key_le a b).
Proof. unfold key_le. apply _. Defined.

(** The order of [sorted(rows.items())].  The keys of a dict are distinct,
    so comparing two items never gets to their second components. *)
Definition item_le (a b : (Z * Z) * impl_dict) : Prop := key_le a.1 b.1.

#[global] Instance item_le_dec a b : Decision (item_le a b).
Proof. unfold item_le. apply _. Defined.

(** [sorted] on the items of a dict, in whatever order the dict gives
    them.  The keys are distinct, so the result is the one list that is
    in order and holds these items, whatever the sorting algorithm. *)
Definition sorted_item_list (items : list ((Z * Z) * impl_dict))
  : list ((Z * Z) * impl_dict) :=
  merge_sort item_le items.

(** One cell: [impls.get] with the empty text as default, and an [int]
    formatted by [f"{val:,}"]. *)
Definition cell (impls : impl_dict) (impl : pystr) : pystr :=
  match impls !! Some impl with
  | Some val => format_thousands val
  | None => []
  end.

(** The list [row] of the loop body: the label, then a cell per column. *)
Definition data_row (implementations : list pystr)
    (item : (Z * Z) * impl_dict) : list pystr :=
  (format_int item.1.1 ++ str "/" ++ format_int item.1.2)
    :: map (cell item.2) implementations.

(** The lists [row] of all passes of the loop, in its order. *)
Definition data_rows (implementations : list pystr)
    (items : list ((Z * Z) * impl_dict)) : list (list pystr) :=
  map (data_row implementations) (sorted_item_list items).

(** ["| " + " | ".join(row) + " |"]. *)
Definition row_line (cells : list pystr) : pystr :=
  str "| " ++ join (str " | ") cells ++ str " |".

(** [f"## {func_name} Function Gas Costs\n"]. *)
Definition heading_line (func_name : pystr) : pystr :=
  str "## " ++ func_name ++ str " Function Gas Costs" ++ [10%N].

(** ["| Selectors/Facets | " + " | ".join(implementations) + " |"]. *)
Definition header_line (implementations : list pystr) : pystr :=
  str "| Selectors/Facets | " ++ join (str " | ") implementations ++ str " |".

(** A run of dashes as long as each header, between bars. *)
Definition separator_line (implementations : list pystr) : pystr :=
  str "|"
    ++ join (str "|")
         (map (fun h => repeat_char 45%N (length h))
              (str "Selectors/Facets" :: implementations))
    ++ str "|".

(** ["\n---\n"], the last item of [md]. *)
Definition rule_line : pystr := [10%N] ++ str "---" ++ [10%N].

(** The list [md] of [format_table] when it returns, for the items of
    [rows] taken in the order [items]. *)
Definition table_lines_from (func_name : pystr)
    (items : list ((Z * Z) * impl_dict)) (implementations : list pystr)
  : list pystr :=
  [heading_line func_name; header_line implementations;
   separator_line implementations]
    ++ map row_line (data_rows implementations items)
    ++ [rule_line].

Definition table_lines (func_name : pystr) (rows : rows_dict)
    (implementations : list pystr) : list pystr :=
  table_lines_from func_name (map_to_list rows) implementations.

Definition format_table (func_name : pystr) (rows : rows_dict)
    (implementations : list pystr) : pystr :=
  join [10%N] (table_lines func_name rows implementations).

(** ** Column discovery *)

(** The set comprehension over every function and every key pair. *)
Definition impl_set (data : data_dict) : gset (option pystr) :=
  ⋃ ((fun func_data : rows_dict =>
        ⋃ ((fun pair : impl_dict => dom pair) <$> (map_to_list func_data).*2))
       <$> (map_to_list data).*2).

(** [sorted] on the names, in whatever order the set gave them.  A name
    that is [None] does not compare with a [str], and a lone [None] is
    refused by the first [join] of [format_table]: [TypeError] either
    way. *)
Definition sorted_names (names : list (option pystr)) : res (list pystr) :=
  match mapM id names with
  | Some strs => Ok (merge_sort str_le strs)
  | None => Raise TypeError
  end.

Definition implementations (data : data_dict) : res (list pystr) :=
  sorted_names (elements (impl_set data)).

(** ** The document *)

Definition preamble : pystr :=
  join [10%N]
    [ [];
      [];
      str "# Diamond Loupe Gas Benchmark Report";
      str "    ";
      str "## Usage";
      [];
      [];
      str "Run the following command to execute the benchmark and generate the .csv results:";
      str "```bash";
      str "forge script script/LoupeBenchmark.s.sol --gas-limit 1000000000000000000";
      str "```";
      [];
      str "Use a very high gas limit to avoid out-of-gas errors during execution.";
      [];
      [];
      str "Then, convert the CSV results into a Markdown report (BENCHMARK_REPORT.md) with:";
      [];
      str "```bash";
      str "python3 gen_benchmark_report.py ";
      str "```";
      str "    **Compiler Settings in foundry.toml:**";
      str "    - Optimizer Runs: 20,000" ++ [34%N];
      str "    - viaIR: Disabled";
      [] ].

Definition facets_name : pystr := str "facets()".
Definition facetAddresses_name : pystr := str "facetAddresses()".

(** The two calls of [format_table], on the column list [impls].  Reading
    [data[name]] binds a missing name to an empty dict, after the columns
    were computed. *)
Definition assemble (data : data_dict) (impls : list pystr) : pystr :=
  let '(rows1, data1) :=
    defaultdict_get (∅ : rows_dict) data (Some facets_name) in
  let md := preamble ++ format_table facets_name rows1 impls in
  let '(rows2, _) :=
    defaultdict_get (∅ : rows_dict) data1 (Some facetAddresses_name) in
  md ++ format_table facetAddresses_name rows2 impls.

(** Everything before the output file is opened: the final value of
    [md], or the exception that ended the script. *)
Definition report (parse_int : pystr -> option Z) (lines : list csv_line)
  : res pystr :=
  data ← ingest parse_int lines;
  impls ← implementations data;
  Ok (assemble data impls).

(** ** The run

    The files the script touches and what it prints. *)
Record world := World {
  output_file : option pystr;   (* BENCHMARK_REPORT.md, if it exists *)
  stdout : list pystr
}.

Inductive exit := Success | Uncaught (e : exn).

Definition success_message : pystr :=
  str "Markdown report generated: BENCHMARK_REPORT.md".

(** The end of the script, from the final value of [md] or the exception:
    the file is opened and written only when [md] is there. *)
Definition finish (out : res pystr) (w : world) : world * exit :=
  match out with
  | Ok md => (World (Some md) (stdout w ++ [success_message]), Success)
  | Raise e => (w, Uncaught e)
  end.

Definition main (parse_int : pystr -> option Z) (lines : list csv_line)
    (w : world) : world * exit :=
  finish (report parse_int lines) w.

(** ** Runs with the iteration order of sets and dicts left open

    A set of strings is iterated in an order that depends on the hash
    seed of the process, and a dict in insertion order.  [runs] lets
    every such iteration take any order: the names reach [sorted] as any
    enumeration of the set, the items of each table as any enumeration of
    the dict. *)

Inductive runs (parse_int : pystr -> option Z) (lines : list csv_line)
  : res pystr -> Prop :=
| runs_ingest_raises e :
    ingest parse_int lines = Raise e ->
    runs parse_int lines (Raise e)
| runs_sorted_raises data names e :
    ingest parse_int lines = Ok data ->
    names ≡ₚ elements (impl_set data) ->
    sorted_names names = Raise e ->
    runs parse_int lines (Raise e)
| runs_writes data names impls items1 items2 :
    ingest parse_int lines = Ok data ->
    names ≡ₚ elements (impl_set data) ->
    sorted_names names = Ok impls ->
    items1 ≡ₚ map_to_list (default ∅ (data !! Some facets_name)) ->
    items2 ≡ₚ map_to_list (default ∅ (data !! Some facetAddresses_name)) ->
    runs parse_int lines
      (Ok (preamble
             ++ join [10%N] (table_lines_from facets_name items1 impls)
             ++ join [10%N]
                  (table_lines_from facetAddresses_name items2 impls))).

(** ** The records of the input

    A view of the loop for the proofs: what one pass reads from a row
    before it stores it, and the aggregation as a function of the
    records read. *)

Record record := Rec {
  rec_impl : option pystr;
  rec_func : option pystr;
  rec_facets : Z;
  rec_selectors : Z;
  rec_gas : Z
}.

Definition parse_row (parse_int : pystr -> option Z) (row : row_dict)
  : res record :=
  impl ← getitem row (str "Implementation");
  func ← getitem row (str "Function");
  facets ← getitem row (str "Facets") ≫= int parse_int;
  selectors ← getitem row (str "Selectors") ≫= int parse_int;
  gas ← getitem row (str "GasUsed") ≫= int parse_int;
  Ok (Rec impl func facets selectors gas).

Fixpoint parse_rows (parse_int : pystr -> option Z) (rows : list row_dict)
  : res (list record) :=
  match rows with
  | [] => Ok []
  | row :: rest =>
      r ← parse_row parse_int row;
      rs ← parse_rows parse_int rest;
      Ok (r :: rs)
  end.

(** The records of a file all of whose rows can be read, in file order. *)
Definition read_records (parse_int : pystr -> option Z)
    (lines : list csv_line) : res (list record) :=
  parse_rows parse_int (DictReader lines).

(** The key pair of a record: selectors first. *)
Definition rec_key (r : record) : Z * Z := (rec_selectors r, rec_facets r).

Definition add_record (data : data_dict) (r : record) : data_dict :=
  data_set data (rec_func r) (rec_key r) (rec_impl r) (rec_gas r).

Definition aggregate (recs : list record) : data_dict :=
  fold_left add_record recs ∅.

(** Two records for the same (function, selectors, facets,
    implementation). *)
Definition same_tuple (r r' : record) : Prop :=
  rec_func r = rec_func r' ∧ rec_key r = rec_key r'
  ∧ rec_impl r = rec_impl r'.

(** The rows that [format_table] receives for [func_name]. *)
Definition rows_of (data : data_dict) (func_name : pystr) : rows_dict :=
  default ∅ (data !! Some func_name).

(** The innermost dict of a function and a key pair, if there is one. *)
Definition bucket (data : data_dict) (func : option pystr) (key : Z * Z)
  : option impl_dict :=
  rows ← data !! func; rows !! key.

(** The measurement stored for a tuple, if any. *)
Definition stored (data : data_dict) (func : option pystr) (key : Z * Z)
    (impl : option pystr) : option Z :=
  impls ← bucket data func key; impls !! impl.

(** The functions that get a table. *)
Definition rendered (func : option pystr) : bool :=
  bool_decide (func = Some facets_name)
  || bool_decide (func = Some facetAddresses_name).

(** The columns and the cells of the data rows of one table of a run. *)
Definition run_table (parse_int : pystr -> option Z) (lines : list csv_line)
    (func_name : pystr) : res (list pystr * list (list pystr)) :=
  data ← ingest parse_int lines;
  impls ← implementations data;
  Ok (impls, data_rows impls (map_to_list (rows_of data func_name))).

(** The document of a run that aggregated [data] and found the columns
    [impls]: the preamble and the two tables. *)
Definition document (data : data_dict) (impls : list pystr) : pystr :=
  preamble
    ++ format_table facets_name (rows_of data facets_name) impls
    ++ format_table facetAddresses_name
         (rows_of data facetAddresses_name) impls.

(** ** Inputs of the examples *)

Definition header : csv_line :=
  [str "Implementation"; str "Function"; str "Facets"; str "Selectors";
   str "GasUsed"].

(** ImplA and ImplB measured on facets() with 2 facets and 5 selectors. *)
Definition two_impls : list csv_line :=
  [header;
   [str "ImplA"; str "facets()"; str "2"; str "5"; str "100000"];
   [str "ImplB"; str "facets()"; str "2"; str "5"; str "120000"]].

(** The same, and a measurement of another function by a third
    implementation. *)
Definition with_unknown : list csv_line :=
  two_impls ++ [[str "ImplZ"; str "unknownFn()"; str "1"; str "1"; str "7"]].

(** A header without the expected names, and no row under it. *)
Definition header_only : list csv_line := [[str "Foo"; str "Bar"]].

(** The same key measured twice by ImplA. *)
Definition twice : list csv_line :=
  [header;
   [str "ImplA"; str "facets()"; str "2"; str "5"; str "100000"];
   [str "ImplB"; str "facets()"; str "1"; str "12"; str "1234567"];
   [str "ImplA"; str "facets()"; str "2"; str "5"; str "99"]].


(** A measurement that is not a numeral. *)
Definition bad_gas : list csv_line :=
  [header; [str "ImplA"; str "facets()"; str "2"; str "5"; str "abc"]].

Definition empty_world : world := World None [].

(** The records of [two_impls] and of [twice]. *)
Definition recA : record :=
  Rec (Some (str "ImplA")) (Some facets_name) 2 5 100000.
Definition recB : record :=
  Rec (Some (str "ImplB")) (Some facets_name) 2 5 120000.
Definition recB' : record :=
  Rec (Some (str "ImplB")) (Some facets_name) 1 12 1234567.
Definition recA' : record :=
  Rec (Some (str "ImplA")) (Some facets_name) 2 5 99.

(** The record of the last row of [with_unknown] and the one of
    [negative]. *)
Definition recZ : record :=
  Rec (Some (str "ImplZ")) (Some (str "unknownFn()")) 1 1 7.


(** The columns in another order, with one that the script does not
    read. *)
Definition shuffled : csv_line :=
  [str "GasUsed"; str "Note"; str "Function"; str "Implementation";
   str "Selectors"; str "Facets"].

(** A header that names the gas column twice. *)
Definition repeated_gas : csv_line := header ++ [str "GasUsed"].

(** [two_impls] with its rows in the other order and one of them twice. *)
Definition two_impls_again : list csv_line :=
  [header;
   [str "ImplB"; str "facets()"; str "2"; str "5"; str "120000"];
   [str "ImplA"; str "facets()"; str "2"; str "5"; str "100000"];
   [str "ImplB"; str "facets()"; str "2"; str "5"; str "120000"]].

#[global] Instance same_tuple_dec r r' : Decision (same_tuple r r').
Proof. unfold same_tuple. apply _. Defined.

(** * Properties *)

Arguments str : simpl never.
Arguments preamble : simpl never.
Arguments facets_name : simpl never.
Arguments facetAddresses_name : simpl never.

(** Closed goals about the example inputs are settled by evaluation. *)
Ltac by_evaluation := vm_compute; reflexivity.
Ltac by_decision := apply (bool_decide_eq_true_1 _); vm_compute; reflexivity.

(** ** The order on text *)

Lemma str_ltb_irrefl a : str_ltb a a = false.
Proof.
  induction a as [|x a IH]; simpl; [done|].
  by rewrite N.ltb_irrefl, N.eqb_refl.
Qed.

Lemma str_ltb_trans a b c :
  str_ltb a b = true → str_ltb b c = true → str_ltb a c = true.
Proof.
  revert b c. induction a as [|x a IH]; intros [|y b] [|z c]; simpl; try done.
  destruct (N.ltb_spec x y), (N.ltb_spec y z), (N.ltb_spec x z),
    (N.eqb_spec x y), (N.eqb_spec y z), (N.eqb_spec x z);
    try done; try lia.
  apply IH.
Qed.

Lemma str_ltb_connex a b :
  str_ltb a b = false → str_ltb b a = false → a = b.
Proof.
  revert b. induction a as [|x a IH]; intros [|y b]; simpl; try done.
  destruct (N.ltb_spec x y), (N.ltb_spec y x); try done.
  destruct (N.eqb_spec x y), (N.eqb_spec y x); try done; try lia.
  intros. f_equal; auto.
Qed.

Lemma str_ltb_asym a b : str_ltb a b = true → str_ltb b a = false.
Proof.
  intros H. destruct (str_ltb b a) eqn:E; [|done].
  by rewrite <- (str_ltb_irrefl a), <- (str_ltb_trans _ _ _ H E).
Qed.

#[global] Instance str_le_total : Total str_le.
Proof.
  intros a b. unfold str_le.
  destruct (str_ltb b a) eqn:E; [right; by apply str_ltb_asym | by left].
Qed.

#[global] Instance str_le_trans : Transitive str_le.
Proof.
  intros a b c Hab Hbc. unfold str_le in *.
  destruct (str_ltb c a) eqn:E; [|done].
  destruct (str_ltb b c) eqn:E'.
  - by rewrite (str_ltb_trans _ _ _ E' E) in Hab.
  - assert (b = c) by by apply str_ltb_connex. subst. congruence.
Qed.

#[global] Instance str_le_antisym : AntiSymm (=) str_le.
Proof. intros a b Hab Hba. by apply str_ltb_connex. Qed.

Lemma str_le_ne_lt a b : str_le a b → a ≠ b → str_lt a b.
Proof.
  unfold str_le, str_lt. intros H Hne.
  destruct (str_ltb a b) eqn:E; [done|]. destruct Hne. by apply str_ltb_connex.
Qed.

(** ** The order on key pairs *)

#[global] Instance key_le_total : Total key_le.
Proof. intros [a1 a2] [b1 b2]. unfold key_le, key_lt. simpl. lia. Qed.

#[global] Instance key_le_trans : Transitive key_le.
Proof.
  intros [a1 a2] [b1 b2] [c1 c2]. unfold key_le, key_lt. simpl. lia.
Qed.

Lemma key_le_ne_lt a b : key_le a b → a ≠ b → key_lt a b.
Proof.
  destruct a as [a1 a2], b as [b1 b2]. unfold key_le, key_lt. simpl.
  intros H Hne.
  assert (a1 ≠ b1 ∨ a2 ≠ b2) by (destruct (decide (a1 = b1)); [right|left]; congruence).
  lia.
Qed.

#[global] Instance item_le_total : Total item_le.
Proof. intros a b. apply (total key_le). Qed.

#[global] Instance item_le_trans : Transitive item_le.
Proof. intros a b c. apply (transitivity (R:=key_le)). Qed.

(** ** What [sorted] returns *)

Lemma strictly_sorted {A B} (f : A → B) (le lt : relation B) (l : list A) :
  (∀ x y, le x y → x ≠ y → lt x y) →
  StronglySorted (λ a b, le (f a) (f b)) l →
  NoDup (f <$> l) →
  StronglySorted lt (f <$> l).
Proof.
  intros Hlt. induction 1 as [|x l Hl IH Hx]; simpl; [constructor|].
  rewrite NoDup_cons. intros [Hnin Hnd]. constructor; [by apply IH|].
  rewrite Forall_fmap. rewrite Forall_forall in Hx |- *.
  intros y Hy. simpl. apply Hlt; [by apply Hx|].
  intros Heq. apply Hnin. rewrite Heq. by apply list_elem_of_fmap_2.
Qed.

Lemma sorted_names_strict (strs : list pystr) :
  NoDup strs → StronglySorted str_lt (merge_sort str_le strs).
Proof.
  intros Hnd.
  rewrite <- (list_fmap_id (merge_sort str_le strs)).
  apply (strictly_sorted id str_le str_lt); [apply str_le_ne_lt| |].
  - apply (StronglySorted_merge_sort str_le).
  - rewrite list_fmap_id. by rewrite merge_sort_Permutation.
Qed.

Lemma sorted_items_strict (items : list ((Z * Z) * impl_dict)) :
  NoDup items.*1 → StronglySorted key_lt (sorted_item_list items).*1.
Proof.
  intros Hnd. apply (strictly_sorted fst key_le key_lt); [apply key_le_ne_lt| |].
  - apply (StronglySorted_merge_sort item_le).
  - unfold sorted_item_list. by rewrite merge_sort_Permutation.
Qed.

Lemma nodup_fst_inj {A B} (l : list (A * B)) x y :
  NoDup l.*1 → x ∈ l → y ∈ l → x.1 = y.1 → x = y.
Proof.
  induction l as [|z l IH]; csimpl; [by inversion 2|].
  rewrite NoDup_cons, !elem_of_cons. intros [Hnin Hnd] [->|Hx] [->|Hy] Heq;
    [done| | |by apply IH].
  - destruct Hnin. rewrite Heq. by apply list_elem_of_fmap_2.
  - destruct Hnin. rewrite <- Heq. by apply list_elem_of_fmap_2.
Qed.

(** With distinct keys the sorted list does not depend on the order the
    items come in. *)
Lemma sorted_items_order (items1 items2 : list ((Z * Z) * impl_dict)) :
  NoDup items1.*1 → items1 ≡ₚ items2 →
  sorted_item_list items1 = sorted_item_list items2.
Proof.
  intros Hnd Hp. unfold sorted_item_list.
  apply (StronglySorted_unique_strong item_le).
  - intros x1 x2 H1 H2 H12 H21.
    rewrite merge_sort_Permutation in H1. rewrite merge_sort_Permutation, <- Hp in H2.
    destruct (decide (x1.1 = x2.1)) as [Heq|Hne].
    + by apply (nodup_fst_inj items1).
    + pose proof (key_le_ne_lt _ _ H12 Hne). by destruct H21.
  - apply (StronglySorted_merge_sort item_le).
  - apply (StronglySorted_merge_sort item_le).
  - by rewrite !merge_sort_Permutation.
Qed.

Lemma sorted_strs_order (l1 l2 : list pystr) :
  l1 ≡ₚ l2 → merge_sort str_le l1 = merge_sort str_le l2.
Proof.
  intros Hp. apply (StronglySorted_unique str_le).
  - apply (StronglySorted_merge_sort str_le).
  - apply (StronglySorted_merge_sort str_le).
  - by rewrite !merge_sort_Permutation.
Qed.

(** [sorted] is another sorting algorithm than [merge_sort]; any list
    that is in order and holds the same items is the one computed here. *)
Lemma sorted_items_unique (items sorted : list ((Z * Z) * impl_dict)) :
  NoDup items.*1 → sorted ≡ₚ items → Sorted item_le sorted →
  sorted = sorted_item_list items.
Proof.
  intros Hnd Hp Hs. unfold sorted_item_list.
  apply (StronglySorted_unique_strong item_le).
  - intros x1 x2 H1 H2 H12 H21.
    rewrite Hp in H1. rewrite merge_sort_Permutation in H2.
    destruct (decide (x1.1 = x2.1)) as [Heq|Hne].
    + by apply (nodup_fst_inj items).
    + pose proof (key_le_ne_lt _ _ H12 Hne). by destruct H21.
  - by apply (Sorted_StronglySorted item_le).
  - apply (StronglySorted_merge_sort item_le).
  - by rewrite merge_sort_Permutation.
Qed.

Lemma sorted_strs_unique (l sorted : list pystr) :
  sorted ≡ₚ l → Sorted str_le sorted → sorted = merge_sort str_le l.
Proof.
  intros Hp Hs. apply (StronglySorted_unique str_le).
  - by apply (Sorted_StronglySorted str_le).
  - apply (StronglySorted_merge_sort str_le).
  - by rewrite merge_sort_Permutation.
Qed.

(** ** The loop and the records *)

Section Loop.

Context (parse_int : pystr → option Z).

Lemma ingest_row_parse data row :
  ingest_row parse_int data row =
  r ← parse_row parse_int row; Ok (add_record data r).
Proof.
  unfold ingest_row, parse_row, mbind, res_bind.
  destruct (getitem row (str "Implementation")) as [impl|]; [|done].
  destruct (getitem row (str "Function")) as [func|]; [|done].
  destruct (getitem row (str "Facets")) as [v|]; [|done].
  destruct (int parse_int v); [|done].
  destruct (getitem row (str "Selectors")) as [v'|]; [|done].
  destruct (int parse_int v'); [|done].
  destruct (getitem row (str "GasUsed")) as [v''|]; [|done].
  by destruct (int parse_int v'').
Qed.

Lemma ingest_from_records rows data :
  ingest_from parse_int data rows =
  recs ← parse_rows parse_int rows; Ok (fold_left add_record recs data).
Proof.
  revert data. induction rows as [|row rows IH]; intros data; [done|].
  simpl. rewrite ingest_row_parse. unfold mbind, res_bind.
  destruct (parse_row parse_int row) as [r|e]; [|done].
  rewrite IH. by destruct (parse_rows parse_int rows).
Qed.

Lemma ingest_records lines recs :
  read_records parse_int lines = Ok recs →
  ingest parse_int lines = Ok (aggregate recs).
Proof.
  unfold read_records, ingest. intros H. by rewrite ingest_from_records, H.
Qed.

Lemma ingest_ok_records lines data :
  ingest parse_int lines = Ok data →
  ∃ recs, read_records parse_int lines = Ok recs ∧ data = aggregate recs.
Proof.
  unfold read_records, ingest. rewrite ingest_from_records.
  destruct (parse_rows parse_int (DictReader lines)) as [recs|]; [|done].
  intros [= <-]. by exists recs.
Qed.

End Loop.

(** ** What one assignment does to the aggregation *)

Lemma data_set_insert data func key impl gas :
  data_set data func key impl gas =
  <[func := <[key := <[impl := gas]> (default ∅ (bucket data func key))]>
              (default ∅ (data !! func))]> data.
Proof.
  unfold data_set, defaultdict_get, bucket.
  destruct (data !! func) as [rows|] eqn:Hrows; simpl.
  - destruct (rows !! key) as [impls|] eqn:Himpls; simpl; [done|].
    by rewrite insert_insert_eq.
  - rewrite lookup_empty. simpl. by rewrite !insert_insert_eq.
Qed.

Lemma bucket_data_set data func key impl gas f k :
  bucket (data_set data func key impl gas) f k =
  if decide (func = f ∧ key = k)
  then Some (<[impl := gas]> (default ∅ (bucket data func key)))
  else bucket data f k.
Proof.
  rewrite data_set_insert. unfold bucket at 1.
  destruct (decide (func = f)) as [<-|Hf].
  - rewrite lookup_insert_eq. simpl.
    destruct (decide (key = k)) as [<-|Hk].
    + rewrite lookup_insert_eq. by rewrite decide_True.
    + rewrite lookup_insert_ne by done.
      rewrite decide_False by (intros [_ ?]; done).
      unfold bucket. by destruct (data !! func).
  - rewrite lookup_insert_ne by done.
    by rewrite decide_False by (intros [? _]; done).
Qed.

Lemma bucket_add_record data r f k :
  bucket (add_record data r) f k =
  if decide (rec_func r = f ∧ rec_key r = k)
  then Some (<[rec_impl r := rec_gas r]>
               (default ∅ (bucket data (rec_func r) (rec_key r))))
  else bucket data f k.
Proof. apply bucket_data_set. Qed.

Lemma rows_of_lookup data fname k :
  rows_of data fname !! k = bucket data (Some fname) k.
Proof.
  unfold rows_of, bucket. by destruct (data !! Some fname).
Qed.

Lemma stored_add_record data r f k i :
  stored (add_record data r) f k i =
  if decide (rec_func r = f ∧ rec_key r = k ∧ rec_impl r = i)
  then Some (rec_gas r)
  else stored data f k i.
Proof.
  unfold stored. rewrite bucket_add_record.
  destruct (decide (rec_func r = f ∧ rec_key r = k)) as [[<- <-]|Hfk]; simpl.
  - destruct (decide (rec_impl r = i)) as [<-|Hi].
    + rewrite lookup_insert_eq. by rewrite decide_True.
    + rewrite lookup_insert_ne by done.
      rewrite decide_False by (intros (_ & _ & ?); done).
      by destruct (bucket data (rec_func r) (rec_key r)).
  - by rewrite decide_False by (intros (? & ? & _); auto).
Qed.

(** ** What the whole loop leaves in the aggregation *)

Lemma stored_fold_skip recs data f k i :
  Forall (λ r, ¬ (rec_func r = f ∧ rec_key r = k ∧ rec_impl r = i)) recs →
  stored (fold_left add_record recs data) f k i = stored data f k i.
Proof.
  revert data. induction recs as [|r recs IH]; intros data Hall; [done|].
  apply Forall_cons in Hall as [Hr Hall]. simpl. rewrite IH by done.
  rewrite stored_add_record. by rewrite decide_False.
Qed.

Lemma bucket_fold_skip recs data f k :
  Forall (λ r, ¬ (rec_func r = f ∧ rec_key r = k)) recs →
  bucket (fold_left add_record recs data) f k = bucket data f k.
Proof.
  revert data. induction recs as [|r recs IH]; intros data Hall; [done|].
  apply Forall_cons in Hall as [Hr Hall]. simpl. rewrite IH by done.
  rewrite bucket_add_record. by rewrite decide_False.
Qed.

Lemma bucket_fold_keeps recs data f k :
  is_Some (bucket data f k) →
  is_Some (bucket (fold_left add_record recs data) f k).
Proof.
  revert data. induction recs as [|r recs IH]; intros data Hd; [done|].
  simpl. apply IH. rewrite bucket_add_record. by case_decide.
Qed.

Lemma stored_fold_keeps recs data f k i :
  is_Some (stored data f k i) →
  is_Some (stored (fold_left add_record recs data) f k i).
Proof.
  revert data. induction recs as [|r recs IH]; intros data Hd; [done|].
  simpl. apply IH. rewrite stored_add_record. by case_decide.
Qed.

Lemma stored_fold_origin recs data f k i :
  is_Some (stored (fold_left add_record recs data) f k i) →
  is_Some (stored data f k i)
  ∨ ∃ r, r ∈ recs ∧ rec_func r = f ∧ rec_key r = k ∧ rec_impl r = i.
Proof.
  revert data. induction recs as [|r recs IH]; intros data; [by left|].
  simpl. intros [H|(r' & Hin & H)]%IH.
  - rewrite stored_add_record in H. case_decide; [|by left].
    right. exists r. split; [by left|done].
  - right. exists r'. split; [by right|done].
Qed.

Lemma same_tuple_trans r1 r2 r3 :
  same_tuple r1 r2 → same_tuple r2 r3 → same_tuple r1 r3.
Proof.
  unfold same_tuple. intros (? & ? & ?) (? & ? & ?). split_and!; congruence.
Qed.

(** Every tuple of the input has a last record. *)
Lemma last_of_tuple recs r :
  r ∈ recs →
  ∃ before r' after,
    recs = before ++ r' :: after
    ∧ same_tuple r' r
    ∧ Forall (λ x, ¬ same_tuple x r') after.
Proof.
  revert r. induction recs as [|x recs IH]; intros r Hr; [by inversion Hr|].
  destruct (decide (Exists (λ y, same_tuple y r) recs)) as [Hex|Hnex].
  - apply Exists_exists in Hex as (y & Hy & Hyr).
    destruct (IH y Hy) as (before & r' & after & -> & Hr' & Hlast).
    exists (x :: before), r', after. split; [done|].
    split; [by apply (same_tuple_trans _ y)|done].
  - apply elem_of_cons in Hr as [->|Hr].
    + exists [], x, recs. split; [done|]. split; [done|].
      apply Forall_forall. intros y Hy Hyx. apply Hnex, Exists_exists. eauto.
    + destruct Hnex. apply Exists_exists. exists r. by split.
Qed.

(** The last record of a tuple decides what is stored for it. *)
Lemma stored_last before r after :
  Forall (λ r', ¬ same_tuple r' r) after →
  stored (aggregate (before ++ r :: after))
    (rec_func r) (rec_key r) (rec_impl r) = Some (rec_gas r).
Proof.
  intros Hafter. unfold aggregate. rewrite fold_left_app. simpl.
  rewrite stored_fold_skip by done.
  rewrite stored_add_record. by rewrite decide_True.
Qed.

Lemma bucket_present recs r :
  r ∈ recs → is_Some (bucket (aggregate recs) (rec_func r) (rec_key r)).
Proof.
  intros (before & after & ->)%list_elem_of_split.
  unfold aggregate. rewrite fold_left_app. simpl.
  apply bucket_fold_keeps. rewrite bucket_add_record. by rewrite decide_True.
Qed.

Lemma stored_present recs r :
  r ∈ recs →
  is_Some (stored (aggregate recs) (rec_func r) (rec_key r) (rec_impl r)).
Proof.
  intros (before & after & ->)%list_elem_of_split.
  unfold aggregate. rewrite fold_left_app. simpl.
  apply stored_fold_keeps. rewrite stored_add_record. by rewrite decide_True.
Qed.

Lemma stored_aggregate_origin recs f k i :
  is_Some (stored (aggregate recs) f k i) →
  ∃ r, r ∈ recs ∧ rec_func r = f ∧ rec_key r = k ∧ rec_impl r = i.
Proof.
  intros [H|H]%stored_fold_origin; [|done].
  unfold stored, bucket in H. rewrite lookup_empty in H. by destruct H.
Qed.

Lemma bucket_aggregate_none recs f k :
  Forall (λ r, ¬ (rec_func r = f ∧ rec_key r = k)) recs →
  bucket (aggregate recs) f k = None.
Proof.
  intros H. unfold aggregate. rewrite bucket_fold_skip by done.
  unfold bucket. by rewrite lookup_empty.
Qed.

(** ** The column set *)

Lemma elem_of_impl_set data i :
  i ∈ impl_set data ↔ ∃ f k, is_Some (stored data f k i).
Proof.
  unfold impl_set, stored, bucket. rewrite elem_of_union_list. split.
  - intros (X & HX & Hi).
    apply list_elem_of_fmap in HX as (rows & -> & Hrows).
    apply list_elem_of_fmap in Hrows as ([f rows'] & -> & Hf).
    apply elem_of_map_to_list in Hf. simpl in Hi.
    apply elem_of_union_list in Hi as (Y & HY & Hi).
    apply list_elem_of_fmap in HY as (impls & -> & Himpls).
    apply list_elem_of_fmap in Himpls as ([k impls'] & -> & Hk).
    apply elem_of_map_to_list in Hk. simpl in Hi.
    apply elem_of_dom in Hi. exists f, k. rewrite Hf. simpl. by rewrite Hk.
  - intros (f & k & Hi).
    destruct (data !! f) as [rows|] eqn:Hf; simpl in Hi; [|by destruct Hi].
    destruct (rows !! k) as [impls|] eqn:Hk; simpl in Hi; [|by destruct Hi].
    exists (⋃ ((λ pair : impl_dict, dom pair) <$> (map_to_list rows).*2)).
    split.
    + apply list_elem_of_fmap. exists rows. split; [done|].
      apply list_elem_of_fmap. exists (f, rows). split; [done|].
      by apply elem_of_map_to_list.
    + apply elem_of_union_list. exists (dom impls). split.
      * apply list_elem_of_fmap. exists impls. split; [done|].
        apply list_elem_of_fmap. exists (k, impls). split; [done|].
        by apply elem_of_map_to_list.
      * by apply elem_of_dom.
Qed.

Lemma elem_of_impl_set_aggregate recs i :
  i ∈ impl_set (aggregate recs) ↔ ∃ r, r ∈ recs ∧ rec_impl r = i.
Proof.
  rewrite elem_of_impl_set. split.
  - intros (f & k & (r & Hr & _ & _ & Hi)%stored_aggregate_origin). eauto.
  - intros (r & Hr & <-). exists (rec_func r), (rec_key r).
    by apply stored_present.
Qed.

Lemma mapM_id_Some (names : list (option pystr)) strs :
  mapM id names = Some strs ↔ names = Some <$> strs.
Proof.
  rewrite mapM_Some. split.
  - induction 1 as [|x y l k Hxy _ IH]; [done|]. simpl in *. by subst.
  - intros ->. induction strs; constructor; done.
Qed.

Lemma omap_id_Some (strs : list pystr) : omap id (Some <$> strs) = strs.
Proof. induction strs as [|x strs IH]; [done|]. csimpl. by rewrite IH. Qed.

Lemma sorted_names_Ok names impls :
  sorted_names names = Ok impls ↔
  ∃ strs, names = Some <$> strs ∧ impls = merge_sort str_le strs.
Proof.
  unfold sorted_names. destruct (mapM id names) as [strs|] eqn:E.
  - apply mapM_id_Some in E. split.
    + intros [= <-]. by exists strs.
    + intros (strs' & -> & ->). by apply (inj (fmap Some)) in E as ->.
  - split; [done|]. intros (strs & -> & _).
    by rewrite (proj2 (mapM_id_Some _ strs) eq_refl) in E.
Qed.

Lemma sorted_names_Raise names e :
  sorted_names names = Raise e ↔ None ∈ names ∧ e = TypeError.
Proof.
  unfold sorted_names. destruct (mapM id names) as [strs|] eqn:E.
  - split; [done|]. apply mapM_id_Some in E as ->.
    intros [(x & ? & _)%list_elem_of_fmap _]. done.
  - split; [|by intros [_ ->]]. intros [= <-]. split; [|done].
    apply mapM_None in E. rewrite Exists_exists in E.
    destruct E as (x & Hx & Hn). simpl in Hn. by rewrite <- Hn.
Qed.

(** The order in which the set hands out the names does not matter. *)
Lemma sorted_names_order names1 names2 :
  names1 ≡ₚ names2 → sorted_names names1 = sorted_names names2.
Proof.
  intros Hp.
  destruct (sorted_names names1) as [impls|e] eqn:E1.
  - apply sorted_names_Ok in E1 as (strs1 & -> & ->).
    destruct (sorted_names names2) as [impls2|e2] eqn:E2.
    + apply sorted_names_Ok in E2 as (strs2 & -> & ->).
      f_equal. apply sorted_strs_order.
      rewrite <- (omap_id_Some strs1), <- (omap_id_Some strs2).
      by apply omap_Permutation.
    + apply sorted_names_Raise in E2 as [Hn _]. rewrite <- Hp in Hn.
      by apply list_elem_of_fmap in Hn as (? & ? & _).
  - apply sorted_names_Raise in E1 as [Hn ->]. symmetry.
    apply sorted_names_Raise. by rewrite <- Hp.
Qed.

Lemma implementations_Ok data impls :
  implementations data = Ok impls →
  StronglySorted str_lt impls
  ∧ NoDup impls
  ∧ (None ∉ impl_set data)
  ∧ ∀ name, name ∈ impls ↔ Some name ∈ impl_set data.
Proof.
  unfold implementations. intros (strs & Hel & ->)%sorted_names_Ok.
  assert (NoDup strs) as Hnd.
  { apply (NoDup_fmap Some). rewrite <- Hel. apply NoDup_elements. }
  split; [by apply sorted_names_strict|].
  split; [by rewrite merge_sort_Permutation|]. split.
  - rewrite <- elem_of_elements, Hel.
    intros H. by apply list_elem_of_fmap in H as (? & ? & _).
  - intros name. rewrite merge_sort_Permutation, <- elem_of_elements, Hel.
    by rewrite (list_elem_of_fmap_inj Some).
Qed.

Lemma implementations_total data :
  None ∉ impl_set data → ∃ impls, implementations data = Ok impls.
Proof.
  intros Hn. unfold implementations.
  destruct (sorted_names (elements (impl_set data))) as [impls|e] eqn:E;
    [by exists impls|].
  apply sorted_names_Raise in E as [H _]. by apply elem_of_elements in H.
Qed.

(** ** The lines of a table *)

Lemma data_row_length impls item :
  length (data_row impls item) = S (length impls).
Proof. unfold data_row. simpl. by rewrite length_map. Qed.

Lemma data_row_label impls item :
  data_row impls item !! 0%nat =
  Some (format_int item.1.1 ++ str "/" ++ format_int item.1.2).
Proof. done. Qed.

Lemma data_row_cell impls item (j : nat) name :
  impls !! j = Some name →
  data_row impls item !! S j = Some (cell item.2 name).
Proof.
  intros H. unfold data_row. simpl.
  change (map ?f ?l) with (f <$> l). by rewrite list_lookup_fmap, H.
Qed.

Lemma elem_of_sorted_items rows k d :
  (k, d) ∈ sorted_item_list (map_to_list rows) ↔ rows !! k = Some d.
Proof.
  unfold sorted_item_list. rewrite merge_sort_Permutation.
  apply elem_of_map_to_list.
Qed.



Lemma sorted_items_keys_strict (rows : rows_dict) :
  StronglySorted key_lt (sorted_item_list (map_to_list rows)).*1.
Proof. apply sorted_items_strict, NoDup_fst_map_to_list. Qed.

(** ** The document *)

Lemma table_names_differ : Some facets_name ≠ Some facetAddresses_name.
Proof. intros H. vm_compute in H. discriminate. Qed.

Lemma assemble_tables data impls : assemble data impls = document data impls.
Proof.
  unfold assemble, document, defaultdict_get, rows_of.
  destruct (data !! Some facets_name) as [rows1|] eqn:H1.
  - destruct (data !! Some facetAddresses_name);
      by rewrite <- (assoc_L (++)).
  - rewrite lookup_insert_ne by apply table_names_differ.
    destruct (data !! Some facetAddresses_name);
      by rewrite <- (assoc_L (++)).
Qed.

Lemma report_Ok parse_int lines doc :
  report parse_int lines = Ok doc ↔
  ∃ data impls,
    ingest parse_int lines = Ok data
    ∧ implementations data = Ok impls
    ∧ doc = assemble data impls.
Proof.
  unfold report, mbind, res_bind. split.
  - destruct (ingest parse_int lines) as [data|e] eqn:Hd; [|done].
    destruct (implementations data) as [impls|e] eqn:Hi; [|done].
    intros [= <-]. by exists data, impls.
  - intros (data & impls & Hd & Hi & ->). by rewrite Hd, Hi.
Qed.

Lemma report_view parse_int lines recs doc :
  read_records parse_int lines = Ok recs →
  report parse_int lines = Ok doc →
  ∃ impls,
    ingest parse_int lines = Ok (aggregate recs)
    ∧ implementations (aggregate recs) = Ok impls
    ∧ doc = document (aggregate recs) impls.
Proof.
  intros Hrecs%ingest_records (data & impls & Hd & Hi & ->)%report_Ok.
  rewrite Hrecs in Hd. injection Hd as <-.
  exists impls. by rewrite assemble_tables.
Qed.

(** The column of a record of a run that got to the end. *)
Lemma column_of_record recs impls r :
  implementations (aggregate recs) = Ok impls →
  r ∈ recs →
  ∃ impl (j : nat), rec_impl r = Some impl ∧ impls !! j = Some impl.
Proof.
  intros (_ & _ & Hnone & Hin)%implementations_Ok Hr.
  assert (rec_impl r ∈ impl_set (aggregate recs)) as Hi
    by (apply elem_of_impl_set_aggregate; eauto).
  destruct (rec_impl r) as [impl|] eqn:E; [|done].
  apply Hin, list_elem_of_lookup in Hi as [j Hj]. eauto.
Qed.


(** ** Numerals *)

Lemma group3_ind (P : pystr → Prop) :
  (∀ l, (length l ≤ 3)%nat → P l) →
  (∀ a b c x rest, P (x :: rest) → P (a :: b :: c :: x :: rest)) →
  ∀ l, P l.
Proof.
  intros Hshort Hstep l.
  remember (length l) as n eqn:Hn. revert l Hn.
  induction n as [n IH] using lt_wf_ind. intros l ->.
  destruct l as [|a [|b [|c [|x rest]]]]; try (apply Hshort; simpl; lia).
  apply Hstep. apply (IH (length (x :: rest))); [simpl; lia|done].
Qed.

Lemma group3_short l : (length l ≤ 3)%nat → group3 l = l.
Proof. destruct l as [|a [|b [|c [|x rest]]]]; simpl; [done..|lia]. Qed.

Lemma group3_step a b c x rest :
  group3 (a :: b :: c :: x :: rest) = a :: b :: c :: 44%N :: group3 (x :: rest).
Proof. done. Qed.

(** Without the commas the digits are the ones that went in. *)
Lemma group3_digits l :
  Forall (λ c, c ≠ 44%N) l → filter (λ c, c ≠ 44%N) (group3 l) = l.
Proof.
  induction l as [l Hl|a b c x rest IH] using group3_ind; intros Hall.
  - rewrite group3_short by done. clear Hl.
    induction Hall as [|y l Hy _ IH]; [done|].
    by rewrite filter_cons_True, IH.
  - rewrite group3_step.
    apply Forall_cons in Hall as [Ha Hall]. apply Forall_cons in Hall as [Hb Hall].
    apply Forall_cons in Hall as [Hc Hall].
    rewrite !filter_cons_True by done.
    rewrite filter_cons_False by (intros H; by apply H).
    by rewrite IH.
Qed.

(** Counting from the least significant digit, the commas sit at the
    positions 3, 7, 11, ... and nowhere else. *)
Lemma group3_commas l (i : nat) :
  Forall (λ c, c ≠ 44%N) l →
  group3 l !! i = Some 44%N ↔
  (i mod 4 = 3 ∧ i < length (group3 l))%nat.
Proof.
  revert i. induction l as [l Hl|a b c x rest IH] using group3_ind;
    intros i Hall.
  - rewrite group3_short by done. split.
    + intros Hi. apply list_elem_of_lookup_2 in Hi.
      rewrite Forall_forall in Hall. by destruct (Hall _ Hi).
    + intros [Hmod Hlt]. assert (i < 3)%nat as Hi3 by lia.
      destruct i as [|[|[|i]]]; simpl in Hmod; try lia; done.
  - rewrite group3_step.
    apply Forall_cons in Hall as [Ha Hall]. apply Forall_cons in Hall as [Hb Hall].
    apply Forall_cons in Hall as [Hc Hall].
    destruct i as [|[|[|[|i]]]]; simpl length.
    + simpl. split; [intros [= ?]; done|]. by intros [[=] _].
    + simpl. split; [intros [= ?]; done|]. by intros [[=] _].
    + simpl. split; [intros [= ?]; done|]. by intros [[=] _].
    + simpl. split; [intros _; split; [done|lia]|done].
    + change ((a :: b :: c :: 44%N :: group3 (x :: rest)) !! S (S (S (S i))))
        with (group3 (x :: rest) !! i).
      rewrite (IH i Hall).
      replace (S (S (S (S i))) mod 4)%nat with (i mod 4)%nat;
        [simpl length; lia|].
      change (S (S (S (S i)))) with (4 + i)%nat.
      rewrite Nat.Div0.add_mod, Nat.Div0.mod_same, Nat.add_0_l, Nat.Div0.mod_mod. done. 
Qed.

Lemma uint_chars_no_comma u : Forall (λ c, c ≠ 44%N) (uint_chars u).
Proof. induction u; simpl; constructor; done. Qed.

Lemma abs_digits_no_comma z : Forall (λ c, c ≠ 44%N) (abs_digits z).
Proof. unfold abs_digits. destruct (Z.to_int z); apply uint_chars_no_comma. Qed.

Lemma abs_digits_opp z : abs_digits (- z) = abs_digits z.
Proof. by destruct z. Qed.

Lemma abs_digits_abs z : abs_digits (Z.abs z) = abs_digits z.
Proof. by destruct z. Qed.

Lemma format_thousands_sign z :
  format_thousands z = sign_chars z ++ format_thousands (Z.abs z).
Proof. by destruct z. Qed.

(** [f"{z:,}"] is [str(z)] with commas put in: taking the commas away
    gives the numeral back. *)
Lemma format_thousands_digits z :
  filter (λ c, c ≠ 44%N) (format_thousands z) = format_int z.
Proof.
  unfold format_thousands, format_int. rewrite filter_app. f_equal.
  - unfold sign_chars. by destruct (z <? 0).
  - rewrite filter_reverse, group3_digits, reverse_involutive; [done|].
    apply Forall_reverse, abs_digits_no_comma.
Qed.

(** Counting from the right end of the numeral of a number that is not
    negative, the commas sit at the positions 3, 7, 11, ... and nowhere
    else. *)
Lemma format_thousands_commas z (i : nat) :
  0 ≤ z →
  reverse (format_thousands z) !! i = Some 44%N ↔
  (i mod 4 = 3 ∧ i < length (format_thousands z))%nat.
Proof.
  intros Hz. unfold format_thousands, sign_chars.
  rewrite (proj2 (Z.ltb_ge _ _) Hz). simpl.
  rewrite reverse_involutive, length_reverse.
  apply group3_commas, Forall_reverse, abs_digits_no_comma.
Qed.

Lemma table_in_document data impls fname :
  fname = facets_name ∨ fname = facetAddresses_name →
  ∃ before after,
    document data impls =
    before ++ join [10%N] (table_lines fname (rows_of data fname) impls)
      ++ after.
Proof.
  unfold document, format_table. intros [->| ->].
  - by eexists preamble, _.
  - exists (preamble
            ++ join [10%N]
                 (table_lines facets_name (rows_of data facets_name) impls)),
      [].
    by rewrite (right_id_L [] (++)), <- (assoc_L (++)).
Qed.

(** ** What is printed is read back

    The numeral that [str] gives for an integer is one that [int] reads,
    as the same integer. *)

Lemma int_digits_acc u (acc : positive) :
  int_digits (Z.pos acc) false (uint_chars u)
  = Some (Z.pos (Pos.of_uint_acc u acc)).
Proof.
  revert acc. induction u; intros acc; simpl; [done|..];
    rewrite <- IHu; f_equal; lia.
Qed.

Lemma int_digits_zero u :
  int_digits 0 false (uint_chars u) = Some (Z.of_N (Pos.of_uint u)).
Proof.
  induction u; simpl; [done|exact IHu|..]; apply int_digits_acc.
Qed.

Lemma int_unsigned_uint u :
  u ≠ Nil → int_unsigned (uint_chars u) = Some (Z.of_N (Pos.of_uint u)).
Proof.
  destruct u; intros Hu; [done|..]; simpl;
    [apply int_digits_zero|apply int_digits_acc..].
Qed.

Lemma int_ascii_digits u :
  u ≠ Nil → int_ascii (uint_chars u) = Some (Z.of_N (Pos.of_uint u)).
Proof.
  intros Hu. rewrite <- (int_unsigned_uint u Hu). by destruct u.
Qed.

Lemma int_ascii_minus s : int_ascii (str "-" ++ s) = Z.opp <$> int_unsigned s.
Proof. done. Qed.

Lemma int_ascii_format_int z : int_ascii (format_int z) = Some z.
Proof.
  destruct z as [|p|p].
  - by vm_compute.
  - change (format_int (Z.pos p)) with (uint_chars (Pos.to_uint p)).
    rewrite int_ascii_digits by apply DecimalPos.Unsigned.to_uint_nonnil.
    by rewrite DecimalPos.Unsigned.of_to.
  - change (format_int (Z.neg p)) with (str "-" ++ uint_chars (Pos.to_uint p)).
    rewrite int_ascii_minus.
    rewrite int_unsigned_uint by apply DecimalPos.Unsigned.to_uint_nonnil.
    by rewrite DecimalPos.Unsigned.of_to.
Qed.

(** ** Records of other functions *)

Lemma bucket_filter (keep : record → bool) f k recs data data' :
  (∀ r, r ∈ recs → rec_func r = f → keep r = true) →
  (∀ k', bucket data f k' = bucket data' f k') →
  bucket (fold_left add_record recs data) f k =
  bucket (fold_left add_record (List.filter keep recs) data') f k.
Proof.
  revert data data'. induction recs as [|r recs IH]; intros data data' Hkeep Hd;
    [apply Hd|].
  simpl. destruct (keep r) eqn:E; simpl.
  - apply IH; [intros r' Hr'; apply Hkeep; by right|].
    intros k'. rewrite !bucket_add_record.
    case_decide as Hfk; [|done]. destruct Hfk as [Hf _].
    by rewrite Hf, Hd.
  - apply IH; [intros r' Hr'; apply Hkeep; by right|].
    intros k'. rewrite bucket_add_record. rewrite decide_False; [done|].
    intros [Hf _]. rewrite (Hkeep r) in E; [done|by left|done].
Qed.

Lemma rows_of_filter (keep : record → bool) fname recs :
  (∀ r, r ∈ recs → rec_func r = Some fname → keep r = true) →
  rows_of (aggregate recs) fname =
  rows_of (aggregate (List.filter keep recs)) fname.
Proof.
  intros Hkeep. apply map_eq. intros k. rewrite !rows_of_lookup.
  by apply bucket_filter.
Qed.

Lemma document_rendered_only recs impls :
  document (aggregate recs) impls =
  document (aggregate (List.filter (λ r, rendered (rec_func r)) recs)) impls.
Proof.
  unfold document.
  rewrite <- !(rows_of_filter (λ r, rendered (rec_func r))); [done|..].
  - intros r _ ->. unfold rendered. rewrite orb_true_iff. right.
    by apply bool_decide_eq_true.
  - intros r _ ->. unfold rendered. rewrite orb_true_iff. left.
    by apply bool_decide_eq_true.
Qed.

Lemma report_total parse_int lines recs :
  read_records parse_int lines = Ok recs →
  Forall (λ r, is_Some (rec_impl r)) recs →
  ∃ impls,
    implementations (aggregate recs) = Ok impls
    ∧ report parse_int lines = Ok (document (aggregate recs) impls).
Proof.
  intros Hrecs Hall.
  destruct (implementations_total (aggregate recs)) as [impls Hi].
  - intros (r & Hr & Hn)%elem_of_impl_set_aggregate.
    rewrite Forall_forall in Hall. destruct (Hall r Hr) as [? ?]. congruence.
  - exists impls. split; [done|]. apply report_Ok.
    exists (aggregate recs), impls.
    split_and!; [by apply ingest_records|done|by rewrite assemble_tables].
Qed.

(** ** Rows that cannot be read *)

Lemma zip_fields_names fieldnames line :
  (zip_fields fieldnames line).*1 = fieldnames.
Proof.
  revert line. induction fieldnames as [|k ks IH]; intros [|v vs]; csimpl;
    by rewrite ?IH.
Qed.

Lemma fold_insert_None (kvs : list (pystr * option pystr)) (d : row_dict) name :
  fold_left (λ d kv, <[kv.1 := kv.2]> d) kvs d !! name = None ↔
  d !! name = None ∧ name ∉ kvs.*1.
Proof.
  revert d. induction kvs as [|[k v] kvs IH]; intros d; csimpl.
  - split; [intros H; split; [done|by apply not_elem_of_nil] | by intros [? _]].
  - rewrite IH, not_elem_of_cons, lookup_insert_None. simpl.
    split; [intros [[? ?] ?]|intros [? [? ?]]]; by split_and!.
Qed.

Lemma make_row_None fieldnames line name :
  make_row fieldnames line !! name = None ↔ name ∉ fieldnames.
Proof.
  unfold make_row. rewrite fold_insert_None, zip_fields_names, lookup_empty.
  split; [by intros [_ ?]|by split].
Qed.

Section Unreadable.

Context (parse_int : pystr → option Z).

Lemma int_Ok v z :
  int parse_int v = Ok z → ∃ s, v = Some s ∧ parse_int s = Some z.
Proof.
  unfold int. destruct v as [s|]; [|done].
  destruct (parse_int s) as [z'|] eqn:E; [|done]. intros [= <-]. eauto.
Qed.

Lemma parse_row_Ok row r :
  parse_row parse_int row = Ok r →
  row !! str "Implementation" = Some (rec_impl r)
  ∧ row !! str "Function" = Some (rec_func r)
  ∧ (∃ s, row !! str "Facets" = Some (Some s)
          ∧ parse_int s = Some (rec_facets r))
  ∧ (∃ s, row !! str "Selectors" = Some (Some s)
          ∧ parse_int s = Some (rec_selectors r))
  ∧ (∃ s, row !! str "GasUsed" = Some (Some s)
          ∧ parse_int s = Some (rec_gas r)).
Proof.
  unfold parse_row, mbind, res_bind, getitem.
  destruct (row !! str "Implementation") as [impl|]; [|done].
  destruct (row !! str "Function") as [func|]; [|done].
  destruct (row !! str "Facets") as [fv|]; [|done].
  destruct (int parse_int fv) as [f|] eqn:Ef; [|done].
  destruct (row !! str "Selectors") as [sv|]; [|done].
  destruct (int parse_int sv) as [s|] eqn:Es; [|done].
  destruct (row !! str "GasUsed") as [gv|]; [|done].
  destruct (int parse_int gv) as [g|] eqn:Eg; [|done].
  intros [= <-]. simpl.
  apply int_Ok in Ef as (? & -> & ?). apply int_Ok in Es as (? & -> & ?).
  apply int_Ok in Eg as (? & -> & ?). split_and!; eauto.
Qed.

Lemma parse_rows_Ok rows recs row :
  parse_rows parse_int rows = Ok recs →
  row ∈ rows → ∃ r, parse_row parse_int row = Ok r.
Proof.
  revert recs. induction rows as [|row' rows IH]; intros recs; [by inversion 2|].
  simpl. unfold mbind, res_bind.
  destruct (parse_row parse_int row') as [r'|] eqn:E; [|done].
  destruct (parse_rows parse_int rows) as [rs|]; [|done].
  intros _ [->|Hin]%elem_of_cons; eauto.
Qed.

End Unreadable.

Lemma elem_of_DictReader fieldnames rest line :
  line ∈ rest → line ≠ [] →
  make_row fieldnames line ∈ DictReader (fieldnames :: rest).
Proof.
  intros Hin Hne. unfold DictReader. apply list_elem_of_fmap_2.
  apply list_elem_of_In, filter_In. split; [by apply list_elem_of_In|].
  by destruct line.
Qed.


(** ** Runs in any iteration order *)

Lemma table_lines_from_order (fname : pystr) (rows : rows_dict)
    (items : list ((Z * Z) * impl_dict)) (impls : list pystr) :
  items ≡ₚ map_to_list rows →
  table_lines_from fname items impls = table_lines fname rows impls.
Proof.
  intros Hp. unfold table_lines, table_lines_from, data_rows.
  rewrite (sorted_items_order items (map_to_list rows)); [done| |done].
  rewrite Hp. apply NoDup_fst_map_to_list.
Qed.

Lemma runs_report parse_int lines : runs parse_int lines (report parse_int lines).
Proof.
  unfold report, mbind, res_bind.
  destruct (ingest parse_int lines) as [data|e] eqn:Hd;
    [|by apply runs_ingest_raises].
  destruct (implementations data) as [impls|e] eqn:Hi.
  - rewrite assemble_tables.
    by apply (runs_writes _ _ data (elements (impl_set data)) impls
                (map_to_list (rows_of data facets_name))
                (map_to_list (rows_of data facetAddresses_name))).
  - by apply (runs_sorted_raises _ _ data (elements (impl_set data))).
Qed.

Lemma runs_unique parse_int lines out :
  runs parse_int lines out → out = report parse_int lines.
Proof.
  unfold report, mbind, res_bind.
  intros [e He|data names e Hd Hn He|data names impls items1 items2 Hd Hn Hi H1 H2].
  - by rewrite He.
  - rewrite Hd. unfold implementations.
    by rewrite <- (sorted_names_order _ _ Hn), He.
  - rewrite Hd. unfold implementations.
    rewrite <- (sorted_names_order _ _ Hn), Hi, assemble_tables.
    unfold document, format_table.
    by rewrite (table_lines_from_order _ (rows_of data facets_name) _ _ H1),
      (table_lines_from_order _ (rows_of data facetAddresses_name) _ _ H2).
Qed.

(** ** Negative numbers *)




(** ** The text of a table *)

Lemma join_concat (sep p : pystr) (ps : list pystr) :
  join sep (p :: ps) = p ++ concat ((λ q, sep ++ q) <$> ps).
Proof.
  revert p. induction ps as [|q ps IH]; intros p.
  - change (p = p ++ []). by rewrite (right_id_L [] (++)).
  - change (join sep (p :: q :: ps)) with (p ++ sep ++ join sep (q :: ps)).
    rewrite IH, fmap_cons. cbn [concat]. by rewrite <- !(assoc_L (++)).
Qed.

Lemma cells_concat (c : pystr) (cs : list pystr) :
  str "| " ++ c ++ concat ((λ q, str " | " ++ q) <$> cs) ++ str " |"
  = concat ((λ q, str "| " ++ q ++ str " ") <$> (c :: cs)) ++ str "|".
Proof.
  revert c. induction cs as [|q cs IH]; intros c.
  - rewrite fmap_cons, !fmap_nil. cbn [concat].
    change (str " |") with (str " " ++ str "|").
    by rewrite (right_id_L [] (++)), <- !(assoc_L (++)).
  - rewrite (fmap_cons _ c), (fmap_cons _ q cs). cbn [concat].
    change (str " | " ++ q) with (str " " ++ (str "| " ++ q)).
    rewrite <- !(assoc_L (++)). do 3 f_equal.
    by rewrite (IH q).
Qed.

(** ["| " + " | ".join(row) + " |"]: every cell after a bar and between
    two spaces, and a bar at the end. *)
Lemma row_line_text (c : pystr) (cs : list pystr) :
  row_line (c :: cs)
  = concat ((λ q, str "| " ++ q ++ str " ") <$> (c :: cs)) ++ str "|".
Proof. unfold row_line. by rewrite join_concat, <- cells_concat, <- !(assoc_L (++)). Qed.

(** The header row has the cells of a data row; without a column the
    join is the empty text, which leaves an empty second cell. *)
Lemma header_line_text (impls : list pystr) :
  header_line impls
  = concat ((λ q, str "| " ++ q ++ str " ")
              <$> (str "Selectors/Facets"
                     :: match impls with [] => [[]] | _ => impls end))
      ++ str "|".
Proof.
  unfold header_line. destruct impls as [|p ps]; [by_evaluation|].
  rewrite <- cells_concat, join_concat.
  change (str "| Selectors/Facets | ")
    with (str "| " ++ str "Selectors/Facets" ++ str " | ").
  rewrite fmap_cons. cbn [concat]. by rewrite <- !(assoc_L (++)).
Qed.

Lemma separator_line_text (impls : list pystr) :
  separator_line impls
  = concat ((λ h, str "|" ++ replicate (length h) 45%N)
              <$> (str "Selectors/Facets" :: impls))
      ++ str "|".
Proof.
  unfold separator_line.
  change (map ?f (?h :: ?l)) with (f h :: (f <$> l)).
  rewrite join_concat, fmap_cons. cbn [concat].
  rewrite <- list_fmap_compose. by rewrite <- !(assoc_L (++)).
Qed.

Lemma data_row_cells (impls : list pystr) (item : (Z * Z) * impl_dict) :
  data_row impls item
  = (format_int item.1.1 ++ str "/" ++ format_int item.1.2)
      :: ((λ i, match item.2 !! Some i with
                | Some val => format_thousands val
                | None => []
                end) <$> impls).
Proof. done. Qed.

Lemma concat_shift {A} (sep : pystr) (f : A → pystr) (l : list A) :
  concat ((λ x, sep ++ f x) <$> l) ++ sep
  = sep ++ concat ((λ x, f x ++ sep) <$> l).
Proof.
  induction l as [|x l IH].
  - change (sep = sep ++ []). by rewrite (right_id_L [] (++)).
  - rewrite !fmap_cons. cbn [concat].
    by rewrite <- !(assoc_L (++)), IH.
Qed.

Lemma format_table_lines (fname : pystr) (rows : rows_dict)
    (impls : list pystr) :
  format_table fname rows impls
  = heading_line fname ++ [10%N] ++ header_line impls ++ [10%N]
    ++ separator_line impls ++ [10%N]
    ++ concat ((λ it, row_line (data_row impls it) ++ [10%N])
                 <$> sorted_item_list (map_to_list rows))
    ++ rule_line.
Proof.
  unfold format_table, table_lines, table_lines_from, data_rows.
  change (map ?f ?l) with (f <$> l).
  generalize (sorted_item_list (map_to_list rows)). intros items.
  change ([?a; ?b; ?c] ++ ?l) with (a :: b :: c :: l).
  rewrite join_concat, !fmap_cons, fmap_app, <- !list_fmap_compose.
  cbn [concat]. rewrite concat_app, fmap_cons, fmap_nil. cbn [concat].
  rewrite (right_id_L [] (++)), <- !(assoc_L (++)). do 5 f_equal.
  rewrite !(assoc_L (++)). f_equal.
  exact (concat_shift [10%N] (λ it, row_line (data_row impls it)) items).
Qed.

(** The value of [format_table], character by character: the heading and
    a blank line, the header row, the separator row, a line for every
    item in the order of [sorted], a blank line and the rule. *)
Lemma format_table_text (fname : pystr) (rows : rows_dict)
    (impls : list pystr) :
  format_table fname rows impls
  = str "## " ++ fname ++ str " Function Gas Costs" ++ [10%N; 10%N]
    ++ (concat ((λ q, str "| " ++ q ++ str " ")
                  <$> (str "Selectors/Facets"
                         :: match impls with [] => [[]] | _ => impls end))
          ++ str "|") ++ [10%N]
    ++ (concat ((λ h, str "|" ++ replicate (length h) 45%N)
                  <$> (str "Selectors/Facets" :: impls))
          ++ str "|") ++ [10%N]
    ++ concat ((λ it : (Z * Z) * impl_dict,
                  (concat ((λ q, str "| " ++ q ++ str " ")
                             <$> ((format_int it.1.1 ++ str "/"
                                     ++ format_int it.1.2)
                                    :: ((λ i, match it.2 !! Some i with
                                              | Some val =>
                                                  format_thousands val
                                              | None => []
                                              end) <$> impls)))
                     ++ str "|") ++ [10%N])
                 <$> sorted_item_list (map_to_list rows))
    ++ [10%N] ++ str "---" ++ [10%N].
Proof.
  rewrite format_table_lines, header_line_text, separator_line_text.
  unfold heading_line, rule_line.
  change [10%N; 10%N] with ([10%N] ++ [10%N]).
  rewrite <- !(assoc_L (++)). do 12 f_equal.
  f_equal. apply list_fmap_ext. intros _ it _.
  by rewrite data_row_cells, row_line_text, <- !(assoc_L (++)).
Qed.

(** ** The items of a table *)

Lemma bucket_fold_origin recs data f k :
  is_Some (bucket (fold_left add_record recs data) f k) →
  is_Some (bucket data f k)
  ∨ ∃ r, r ∈ recs ∧ rec_func r = f ∧ rec_key r = k.
Proof.
  revert data. induction recs as [|r recs IH]; intros data; [by left|].
  simpl. intros [H|(r' & Hin & H)]%IH.
  - rewrite bucket_add_record in H. case_decide; [|by left].
    right. exists r. split; [by left|done].
  - right. exists r'. split; [by right|done].
Qed.

Lemma bucket_aggregate_iff recs f k :
  is_Some (bucket (aggregate recs) f k) ↔
  ∃ r, r ∈ recs ∧ rec_func r = f ∧ rec_key r = k.
Proof.
  split.
  - intros [H|H]%bucket_fold_origin; [|done].
    unfold bucket in H. rewrite lookup_empty in H. by destruct H.
  - intros (r & Hr & <- & <-). by apply bucket_present.
Qed.

(** The items that [format_table] goes through for a function: one for
    every key pair of a record of the function, in the order of the key
    pairs, each with the measurements stored for the pair. *)
Lemma table_items (recs : list record) (fname : pystr)
    (items : list ((Z * Z) * impl_dict)) :
  items = sorted_item_list (map_to_list (rows_of (aggregate recs) fname)) →
  StronglySorted key_lt items.*1
  ∧ NoDup items.*1
  ∧ (∀ (k : Z * Z) (d : impl_dict),
       (k, d) ∈ items →
       (∀ i, d !! i = stored (aggregate recs) (Some fname) k i)
       ∧ ∃ r, r ∈ recs ∧ rec_func r = Some fname ∧ rec_key r = k)
  ∧ (∀ r, r ∈ recs → rec_func r = Some fname →
       ∃ d : impl_dict, (rec_key r, d) ∈ items).
Proof.
  intros ->. split; [apply sorted_items_keys_strict|]. split; [|split].
  - unfold sorted_item_list. rewrite merge_sort_Permutation.
    apply NoDup_fst_map_to_list.
  - intros k d Hin. apply elem_of_sorted_items in Hin.
    rewrite rows_of_lookup in Hin. split.
    + intros i. unfold stored. by rewrite Hin.
    + apply bucket_aggregate_iff. by rewrite Hin.
  - intros r Hr Hf. destruct (bucket_present recs r Hr) as [d Hd].
    exists d. apply elem_of_sorted_items. by rewrite rows_of_lookup, <- Hf.
Qed.

(** ** From a record back to its row *)

Lemma parse_rows_elem (parse_int : pystr → option Z) (rows : list row_dict)
    (recs : list record) (r : record) :
  parse_rows parse_int rows = Ok recs →
  r ∈ recs →
  ∃ row, row ∈ rows ∧ parse_row parse_int row = Ok r.
Proof.
  revert recs. induction rows as [|row rows IH]; intros recs; simpl.
  - intros [= <-] Hr. by apply not_elem_of_nil in Hr.
  - unfold mbind, res_bind.
    destruct (parse_row parse_int row) as [r0|] eqn:E; [|done].
    destruct (parse_rows parse_int rows) as [rs|]; [|done].
    intros [= <-] [->|Hr]%elem_of_cons.
    + exists row. split; [by left|done].
    + destruct (IH rs eq_refl Hr) as (row' & Hin & Hrow').
      exists row'. split; [by right|done].
Qed.

(** ** Where the commas are *)

Lemma group3_commas_inner (l : pystr) (i : nat) :
  Forall (λ c, c ≠ 44%N) l →
  group3 l !! i = Some 44%N ↔
  (i mod 4 = 3 ∧ S i < length (group3 l))%nat.
Proof.
  revert i. induction l as [l Hl|a b c x rest IH] using group3_ind;
    intros i Hall.
  - rewrite group3_short by done. split.
    + intros Hi. apply list_elem_of_lookup_2 in Hi.
      rewrite Forall_forall in Hall. by destruct (Hall _ Hi).
    + intros [Hmod Hlt]. assert (i < 2)%nat as Hi2 by lia.
      destruct i as [|[|i]]; simpl in Hmod; lia.
  - rewrite group3_step.
    apply Forall_cons in Hall as [Ha Hall]. apply Forall_cons in Hall as [Hb Hall].
    apply Forall_cons in Hall as [Hc Hall].
    assert (0 < length (group3 (x :: rest)))%nat as Hpos
      by (destruct rest as [|? [|? [|? ?]]]; simpl; lia).
    remember (group3 (x :: rest)) as g eqn:Hg. clear Hg.
    destruct i as [|[|[|[|i]]]]; simpl length.
    + simpl. split; [intros [= ?]; done|]. by intros [[=] _].
    + simpl. split; [intros [= ?]; done|]. by intros [[=] _].
    + simpl. split; [intros [= ?]; done|]. by intros [[=] _].
    + split; [intros _; split; [reflexivity|lia]|intros _; reflexivity].
    + change ((a :: b :: c :: 44%N :: g) !! S (S (S (S i)))) with (g !! i).
      rewrite (IH i Hall).
      replace (S (S (S (S i))) mod 4)%nat with (i mod 4)%nat; [lia|].
      change (S (S (S (S i)))) with (4 + i)%nat.
      by rewrite Nat.Div0.add_mod, Nat.Div0.mod_same, Nat.add_0_l,
        Nat.Div0.mod_mod.
Qed.

(** Counting from the right end of the numeral of a number that is not
    negative, a comma sits at each of the positions 3, 7, 11, ... that
    has a digit to its left, and nowhere else. *)
Lemma format_thousands_commas_inner (z : Z) (i : nat) :
  0 ≤ z →
  reverse (format_thousands z) !! i = Some 44%N ↔
  (i mod 4 = 3 ∧ S i < length (format_thousands z))%nat.
Proof.
  intros Hz. unfold format_thousands, sign_chars.
  rewrite (proj2 (Z.ltb_ge _ _) Hz). simpl.
  rewrite reverse_involutive, length_reverse.
  apply group3_commas_inner, Forall_reverse, abs_digits_no_comma.
Qed.

(** * The claims

    The theorems below give the document of a run as text.  In them
    [line cells] is a row of a table, every cell after a bar and between
    two spaces with a bar at the end, and [table name impls items] is
    the text of one table: the heading and a blank line, the header row,
    the separator row, a line for every item, a blank line and the
    rule. *)

(** C1.  In a run that gets to the end, every (function, selectors,
    facets, implementation) tuple of the input whose function is
    facets() or facetAddresses() is in the table of that function: the
    implementation is a column of the tables, the table of the function
    has the row labelled selectors/facets, and the cell of that row
    under the implementation is the measurement of the tuple, the one of
    its last record, with thousands separators.  That is the decimal
    numeral of the measurement, after its sign, with a comma before
    every group of three digits counted from the right that has a digit
    before it, as in 1,234,567 and 100,000 and 123. *)
Theorem C1_tuple_rendered (parse_int : pystr → option Z)
    (lines : list csv_line) (recs : list record) (doc : pystr) (r : record)
    (fname : pystr) :
  read_records parse_int lines = Ok recs →
  report parse_int lines = Ok doc →
  r ∈ recs →
  rec_func r = Some fname →
  fname = facets_name ∨ fname = facetAddresses_name →
  let line := λ cells : list pystr,
    concat ((λ c, str "| " ++ c ++ str " ") <$> cells) ++ str "|" in
  let table := λ (name : pystr) (impls : list pystr)
                 (items : list ((Z * Z) * impl_dict)),
    str "## " ++ name ++ str " Function Gas Costs" ++ [10%N; 10%N]
    ++ line (str "Selectors/Facets"
               :: match impls with [] => [[]] | _ => impls end)
    ++ [10%N]
    ++ (concat ((λ h, str "|" ++ replicate (length h) 45%N)
                  <$> (str "Selectors/Facets" :: impls)) ++ str "|")
    ++ [10%N]
    ++ concat ((λ it : (Z * Z) * impl_dict,
                  line ((format_int it.1.1 ++ str "/" ++ format_int it.1.2)
                          :: ((λ impl, match it.2 !! Some impl with
                                       | Some val => format_thousands val
                                       | None => []
                                       end) <$> impls))
                    ++ [10%N]) <$> items)
    ++ [10%N] ++ str "---" ++ [10%N] in
  ∃ (impls : list pystr) (items1 items2 : list ((Z * Z) * impl_dict))
    (impl : pystr) (j : nat) (d : impl_dict) (r' : record),
    doc = preamble ++ table facets_name impls items1
            ++ table facetAddresses_name impls items2
    ∧ rec_impl r = Some impl
    ∧ impls !! j = Some impl
    ∧ ((fname = facets_name
        ∧ ((rec_selectors r, rec_facets r), d) ∈ items1)
       ∨ (fname = facetAddresses_name
          ∧ ((rec_selectors r, rec_facets r), d) ∈ items2))
    ∧ (∃ before after,
         recs = before ++ r' :: after
         ∧ same_tuple r' r
         ∧ Forall (λ x, ¬ same_tuple x r') after)
    ∧ d !! Some impl = Some (rec_gas r')
    ∧ filter (λ c, c ≠ 44%N) (format_thousands (rec_gas r'))
        = format_int (rec_gas r')
    ∧ format_thousands (rec_gas r')
        = (if rec_gas r' <? 0 then str "-" else [])
            ++ format_thousands (Z.abs (rec_gas r'))
    ∧ (∀ i : nat,
         reverse (format_thousands (Z.abs (rec_gas r'))) !! i = Some 44%N ↔
         (i mod 4 = 3
          ∧ S i < length (format_thousands (Z.abs (rec_gas r'))))%nat)
    ∧ format_thousands 1234567 = str "1,234,567"
    ∧ format_thousands 100000 = str "100,000"
    ∧ format_thousands 123 = str "123".
Proof.
  intros Hrecs Hdoc Hr Hf Hfname line table.
  destruct (report_view _ _ _ _ Hrecs Hdoc) as (impls & Hdata & Himpls & ->).
  destruct (column_of_record _ _ _ Himpls Hr) as (impl & j & Hi & Hj).
  destruct (table_items recs fname _ eq_refl) as (_ & _ & Hitems & Hrow).
  destruct (Hrow r Hr Hf) as [d Hd].
  destruct (last_of_tuple _ _ Hr)
    as (before & r' & after & Hsplit & Hsame & Hlast).
  exists impls,
    (sorted_item_list (map_to_list (rows_of (aggregate recs) facets_name))),
    (sorted_item_list
       (map_to_list (rows_of (aggregate recs) facetAddresses_name))),
    impl, j, d, r'.
  split.
  { subst line table. cbv beta. unfold document.
    by rewrite !format_table_text. }
  split; [exact Hi|]. split; [exact Hj|]. split.
  { destruct Hfname as [->| ->]; [left|right]; (split; [reflexivity|exact Hd]). }
  split; [by exists before, after|]. split.
  { destruct (Hitems _ _ Hd) as [Hcells _]. rewrite Hcells.
    destruct Hsame as (Hsf & Hsk & Hsi).
    rewrite <- Hi, <- Hf, <- Hsf, <- Hsi.
    change (rec_selectors r, rec_facets r) with (rec_key r).
    rewrite <- Hsk, Hsplit. by apply stored_last. }
  split; [apply format_thousands_digits|].
  split; [apply format_thousands_sign|].
  split; [intros i; apply format_thousands_commas_inner, Z.abs_nonneg|].
  split; [by_evaluation|]. split; by_evaluation.
Qed.

Lemma C1_tuple_rendered_witness :
  read_records int_ascii twice = Ok [recA; recB'; recA']
  ∧ report int_ascii twice
    = Ok (document (aggregate [recA; recB'; recA'])
            [str "ImplA"; str "ImplB"])
  ∧ recA ∈ [recA; recB'; recA']
  ∧ ∃ (impls : list pystr) (j : nat) (d : impl_dict),
      impls !! j = Some (str "ImplA")
      ∧ d !! Some (str "ImplA") = Some 99.
Proof.
  assert (read_records int_ascii twice = Ok [recA; recB'; recA'])
    as H1 by by_evaluation.
  assert (report int_ascii twice
          = Ok (document (aggregate [recA; recB'; recA'])
                  [str "ImplA"; str "ImplB"])) as H2 by by_evaluation.
  assert (recA ∈ [recA; recB'; recA']) as H3 by apply list_elem_of_here.
  split; [exact H1|]. split; [exact H2|]. split; [exact H3|].
  destruct (C1_tuple_rendered int_ascii twice _ _ recA facets_name
              H1 H2 H3 eq_refl (or_introl eq_refl))
    as (impls & _ & _ & impl & j & d & r' & _ & Hi & Hj & _
        & (before & after & Hsplit & Hsame & Hlast) & Hcell & _).
  injection Hi as <-.
  assert (r' = recA') as ->.
  { destruct before as [|b0 [|b1 [|b2 before]]]; simpl in Hsplit.
    - injection Hsplit as <- <-. exfalso.
      apply Forall_cons in Hlast as [_ Hlast].
      apply Forall_cons in Hlast as [Hlast _]. apply Hlast. by_decision.
    - injection Hsplit as _ <- _. exfalso. revert Hsame. by_decision.
    - by injection Hsplit as _ _ <- _.
    - destruct before; discriminate Hsplit. }
  exists impls, j, d. split; [exact Hj|exact Hcell].
Defined.

(** C2.  In a run that gets to the end, the data rows of each table are
    in strictly ascending order of their (selectors, facets) pairs, the
    selector counts first and the facet counts where these are equal:
    the pair of a row is made of the Selectors field and the Facets
    field of a row of the input for the function of the table, and the
    label of the row shows the selector count before the stroke.  The
    columns are in strictly ascending lexicographic order of the
    implementation names, and both tables have the same columns in the
    same order. *)
Theorem C2_rows_and_columns_ordered (parse_int : pystr → option Z)
    (lines : list csv_line) (doc : pystr) :
  report parse_int lines = Ok doc →
  let line := λ cells : list pystr,
    concat ((λ c, str "| " ++ c ++ str " ") <$> cells) ++ str "|" in
  let table := λ (name : pystr) (impls : list pystr)
                 (items : list ((Z * Z) * impl_dict)),
    str "## " ++ name ++ str " Function Gas Costs" ++ [10%N; 10%N]
    ++ line (str "Selectors/Facets"
               :: match impls with [] => [[]] | _ => impls end)
    ++ [10%N]
    ++ (concat ((λ h, str "|" ++ replicate (length h) 45%N)
                  <$> (str "Selectors/Facets" :: impls)) ++ str "|")
    ++ [10%N]
    ++ concat ((λ it : (Z * Z) * impl_dict,
                  line ((format_int it.1.1 ++ str "/" ++ format_int it.1.2)
                          :: ((λ impl, match it.2 !! Some impl with
                                       | Some val => format_thousands val
                                       | None => []
                                       end) <$> impls))
                    ++ [10%N]) <$> items)
    ++ [10%N] ++ str "---" ++ [10%N] in
  ∃ (impls : list pystr) (items1 items2 : list ((Z * Z) * impl_dict)),
    doc = preamble ++ table facets_name impls items1
            ++ table facetAddresses_name impls items2
    ∧ StronglySorted str_lt impls
    ∧ ∀ (fname : pystr) (items : list ((Z * Z) * impl_dict)),
        (fname = facets_name ∧ items = items1)
        ∨ (fname = facetAddresses_name ∧ items = items2) →
        StronglySorted
          (λ a b : Z * Z, a.1 < b.1 ∨ (a.1 = b.1 ∧ a.2 < b.2)) items.*1
        ∧ ∀ (k : Z * Z) (d : impl_dict),
            (k, d) ∈ items →
            ∃ (row : row_dict) (s f : pystr),
              row ∈ DictReader lines
              ∧ row !! str "Function" = Some (Some fname)
              ∧ row !! str "Selectors" = Some (Some s)
              ∧ parse_int s = Some k.1
              ∧ row !! str "Facets" = Some (Some f)
              ∧ parse_int f = Some k.2.
Proof.
  intros Hdoc line table.
  destruct (proj1 (report_Ok _ _ _) Hdoc) as (data & impls & Hd & Hi & _).
  destruct (ingest_ok_records _ _ _ Hd) as (recs & Hrecs & ->).
  destruct (report_view _ _ _ _ Hrecs Hdoc) as (impls' & _ & Hi' & ->).
  rewrite Hi in Hi'. injection Hi' as <-.
  exists impls,
    (sorted_item_list (map_to_list (rows_of (aggregate recs) facets_name))),
    (sorted_item_list
       (map_to_list (rows_of (aggregate recs) facetAddresses_name))).
  split.
  { subst line table. cbv beta. unfold document.
    by rewrite !format_table_text. }
  split; [by destruct (implementations_Ok _ _ Hi)|].
  intros fname items Hitems.
  assert (items
          = sorted_item_list (map_to_list (rows_of (aggregate recs) fname)))
    as Heq by (by destruct Hitems as [[-> ->]|[-> ->]]).
  destruct (table_items recs fname items Heq) as (Hsorted & _ & Horigin & _).
  split; [exact Hsorted|].
  intros k d Hin. destruct (Horigin k d Hin) as (_ & r & Hr & Hf & Hk).
  destruct (parse_rows_elem _ _ _ _ Hrecs Hr) as (row & Hrow & Hparse).
  apply parse_row_Ok in Hparse
    as (_ & Hfunc & (f & Hfv & Hfz) & (s & Hsv & Hsz) & _).
  exists row, s, f. rewrite <- Hk. rewrite Hf in Hfunc.
  by split_and!.
Qed.

Lemma C2_rows_and_columns_ordered_witness :
  report int_ascii twice
    = Ok (document (aggregate [recA; recB'; recA'])
            [str "ImplA"; str "ImplB"])
  ∧ ∃ (impls : list pystr) (items1 items2 : list ((Z * Z) * impl_dict)),
      StronglySorted str_lt impls
      ∧ StronglySorted
          (λ a b : Z * Z, a.1 < b.1 ∨ (a.1 = b.1 ∧ a.2 < b.2)) items1.*1.
Proof.
  assert (report int_ascii twice
          = Ok (document (aggregate [recA; recB'; recA'])
                  [str "ImplA"; str "ImplB"])) as H
    by by_evaluation.
  split; [exact H|].
  destruct (C2_rows_and_columns_ordered int_ascii twice _ H)
    as (impls & items1 & items2 & _ & Hcols & Hrows).
  destruct (Hrows facets_name items1 (or_introl (conj eq_refl eq_refl)))
    as (Hsorted & _).
  exists impls, items1, items2. split; [exact Hcols|exact Hsorted].
Defined.

(** C3.  When two records of the input have the same (function,
    selectors, facets, implementation) and no record after the second one
    has it too, reading the input raises nothing and the measurement
    stored for the tuple is the one of the second record.  In a run that
    gets to the end that is the value rendered: the implementation is a
    column, the table of the function has the row of the key pair, and
    the cell of that row under the implementation shows the measurement
    of the second record. *)
Theorem C3_later_record_wins (parse_int : pystr → option Z)
    (lines : list csv_line) (recs l1 : list record) (r1 : record)
    (l2 : list record) (r2 : record) (l3 : list record) :
  read_records parse_int lines = Ok recs →
  recs = l1 ++ r1 :: l2 ++ r2 :: l3 →
  same_tuple r1 r2 →
  Forall (λ r', ¬ same_tuple r' r2) l3 →
  let line := λ cells : list pystr,
    concat ((λ c, str "| " ++ c ++ str " ") <$> cells) ++ str "|" in
  let table := λ (name : pystr) (impls : list pystr)
                 (items : list ((Z * Z) * impl_dict)),
    str "## " ++ name ++ str " Function Gas Costs" ++ [10%N; 10%N]
    ++ line (str "Selectors/Facets"
               :: match impls with [] => [[]] | _ => impls end)
    ++ [10%N]
    ++ (concat ((λ h, str "|" ++ replicate (length h) 45%N)
                  <$> (str "Selectors/Facets" :: impls)) ++ str "|")
    ++ [10%N]
    ++ concat ((λ it : (Z * Z) * impl_dict,
                  line ((format_int it.1.1 ++ str "/" ++ format_int it.1.2)
                          :: ((λ impl, match it.2 !! Some impl with
                                       | Some val => format_thousands val
                                       | None => []
                                       end) <$> impls))
                    ++ [10%N]) <$> items)
    ++ [10%N] ++ str "---" ++ [10%N] in
  ingest parse_int lines = Ok (aggregate recs)
  ∧ stored (aggregate recs) (rec_func r2) (rec_key r2) (rec_impl r2)
      = Some (rec_gas r2)
  ∧ ∀ (doc fname : pystr),
      report parse_int lines = Ok doc →
      rec_func r2 = Some fname →
      fname = facets_name ∨ fname = facetAddresses_name →
      ∃ (impls : list pystr) (items1 items2 : list ((Z * Z) * impl_dict))
        (impl : pystr) (j : nat) (d : impl_dict),
        doc = preamble ++ table facets_name impls items1
                ++ table facetAddresses_name impls items2
        ∧ rec_impl r2 = Some impl
        ∧ impls !! j = Some impl
        ∧ ((fname = facets_name
            ∧ ((rec_selectors r2, rec_facets r2), d) ∈ items1)
           ∨ (fname = facetAddresses_name
              ∧ ((rec_selectors r2, rec_facets r2), d) ∈ items2))
        ∧ d !! Some impl = Some (rec_gas r2).
Proof.
  intros Hrecs Hshape _ Hlast line table.
  assert (recs = (l1 ++ r1 :: l2) ++ r2 :: l3) as Hsplit
    by (rewrite Hshape; by rewrite <- (assoc_L (++))).
  assert (stored (aggregate recs) (rec_func r2) (rec_key r2) (rec_impl r2)
          = Some (rec_gas r2)) as Hstored
    by (rewrite Hsplit; by apply stored_last).
  assert (r2 ∈ recs) as Hr2
    by (rewrite Hsplit; apply elem_of_app; right; by left).
  split; [by apply ingest_records|]. split; [exact Hstored|].
  intros doc fname Hdoc Hf Hfname.
  destruct (report_view _ _ _ _ Hrecs Hdoc) as (impls & _ & Himpls & ->).
  destruct (column_of_record _ _ _ Himpls Hr2) as (impl & j & Hi & Hj).
  destruct (table_items recs fname _ eq_refl) as (_ & _ & Hitems & Hrow).
  destruct (Hrow r2 Hr2 Hf) as [d Hd].
  exists impls,
    (sorted_item_list (map_to_list (rows_of (aggregate recs) facets_name))),
    (sorted_item_list
       (map_to_list (rows_of (aggregate recs) facetAddresses_name))),
    impl, j, d.
  split.
  { subst line table. cbv beta. unfold document.
    by rewrite !format_table_text. }
  split; [exact Hi|]. split; [exact Hj|]. split.
  { destruct Hfname as [->| ->]; [left|right]; (split; [reflexivity|exact Hd]). }
  destruct (Hitems _ _ Hd) as [Hcells _].
  by rewrite Hcells, <- Hi, <- Hf.
Qed.

Lemma C3_later_record_wins_witness :
  read_records int_ascii twice = Ok [recA; recB'; recA']
  ∧ [recA; recB'; recA'] = [] ++ recA :: [recB'] ++ recA' :: []
  ∧ same_tuple recA recA'
  ∧ Forall (λ r', ¬ same_tuple r' recA') []
  ∧ report int_ascii twice
    = Ok (document (aggregate [recA; recB'; recA'])
            [str "ImplA"; str "ImplB"])
  ∧ stored (aggregate [recA; recB'; recA'])
      (Some facets_name) (5, 2) (Some (str "ImplA")) = Some 99
  ∧ ∃ (impls : list pystr) (j : nat) (d : impl_dict),
      impls !! j = Some (str "ImplA")
      ∧ d !! Some (str "ImplA") = Some 99.
Proof.
  assert (read_records int_ascii twice = Ok [recA; recB'; recA']) as H1
    by by_evaluation.
  assert (same_tuple recA recA') as H2
    by by_decision.
  assert (report int_ascii twice
          = Ok (document (aggregate [recA; recB'; recA'])
                  [str "ImplA"; str "ImplB"])) as H3
    by by_evaluation.
  split; [exact H1|]. split; [reflexivity|]. split; [exact H2|].
  split; [constructor|]. split; [exact H3|].
  destruct (C3_later_record_wins int_ascii twice _ [] recA [recB'] recA' []
              H1 eq_refl H2 (Forall_nil_2 _))
    as (_ & Hstored & Hdoc).
  split; [exact Hstored|].
  destruct (Hdoc _ facets_name H3 eq_refl (or_introl eq_refl))
    as (impls & _ & _ & impl & j & d & _ & Hi & Hj & _ & Hcell).
  injection Hi as <-.
  exists impls, j, d. split; [exact Hj|exact Hcell].
Defined.

(** C4.  In a run that gets to the end, the columns of both tables are
    the implementation names of all the records of the input, each once,
    whatever the functions of the records: the header row of a table has
    a cell for each of them and so has every data row.  Where a key pair
    of a rendered function has no measurement for one of these names,
    its row is in the table of the function all the same, and the cell
    under that name is the empty text. *)
Theorem C4_columns_and_blank_cells (parse_int : pystr → option Z)
    (lines : list csv_line) (recs : list record) (doc : pystr) :
  read_records parse_int lines = Ok recs →
  report parse_int lines = Ok doc →
  let line := λ cells : list pystr,
    concat ((λ c, str "| " ++ c ++ str " ") <$> cells) ++ str "|" in
  let table := λ (name : pystr) (impls : list pystr)
                 (items : list ((Z * Z) * impl_dict)),
    str "## " ++ name ++ str " Function Gas Costs" ++ [10%N; 10%N]
    ++ line (str "Selectors/Facets"
               :: match impls with [] => [[]] | _ => impls end)
    ++ [10%N]
    ++ (concat ((λ h, str "|" ++ replicate (length h) 45%N)
                  <$> (str "Selectors/Facets" :: impls)) ++ str "|")
    ++ [10%N]
    ++ concat ((λ it : (Z * Z) * impl_dict,
                  line ((format_int it.1.1 ++ str "/" ++ format_int it.1.2)
                          :: ((λ impl, match it.2 !! Some impl with
                                       | Some val => format_thousands val
                                       | None => []
                                       end) <$> impls))
                    ++ [10%N]) <$> items)
    ++ [10%N] ++ str "---" ++ [10%N] in
  ∃ (impls : list pystr) (items1 items2 : list ((Z * Z) * impl_dict)),
    doc = preamble ++ table facets_name impls items1
            ++ table facetAddresses_name impls items2
    ∧ NoDup impls
    ∧ (∀ name, name ∈ impls ↔ ∃ r, r ∈ recs ∧ rec_impl r = Some name)
    ∧ ∀ (r : record) (fname : pystr)
        (items : list ((Z * Z) * impl_dict)) (name : pystr),
        r ∈ recs →
        rec_func r = Some fname →
        (fname = facets_name ∧ items = items1)
        ∨ (fname = facetAddresses_name ∧ items = items2) →
        name ∈ impls →
        (∀ r', r' ∈ recs →
           ¬ (rec_func r' = Some fname
              ∧ rec_selectors r' = rec_selectors r
              ∧ rec_facets r' = rec_facets r
              ∧ rec_impl r' = Some name)) →
        ∃ d : impl_dict,
          ((rec_selectors r, rec_facets r), d) ∈ items
          ∧ d !! Some name = None.
Proof.
  intros Hrecs Hdoc line table.
  destruct (report_view _ _ _ _ Hrecs Hdoc) as (impls & Hdata & Himpls & ->).
  exists impls,
    (sorted_item_list (map_to_list (rows_of (aggregate recs) facets_name))),
    (sorted_item_list
       (map_to_list (rows_of (aggregate recs) facetAddresses_name))).
  destruct (implementations_Ok _ _ Himpls) as (_ & Hnd & _ & Hin).
  split.
  { subst line table. cbv beta. unfold document.
    by rewrite !format_table_text. }
  split; [exact Hnd|]. split.
  { intros name. by rewrite Hin, elem_of_impl_set_aggregate. }
  intros r fname items name Hr Hf Hitems _ Hnone.
  assert (items
          = sorted_item_list (map_to_list (rows_of (aggregate recs) fname)))
    as Heq by (by destruct Hitems as [[-> ->]|[-> ->]]).
  destruct (table_items recs fname items Heq) as (_ & _ & Hcells & Hrow).
  destruct (Hrow r Hr Hf) as [d Hd]. exists d. split; [exact Hd|].
  destruct (Hcells _ _ Hd) as [Hstored _]. rewrite Hstored.
  destruct (stored (aggregate recs) (Some fname) (rec_key r) (Some name))
    as [g|] eqn:E; [|done].
  destruct (stored_aggregate_origin recs _ _ _ (mk_is_Some _ _ E))
    as (r' & Hr' & Hf' & Hk' & Hi').
  destruct (Hnone r' Hr'). injection Hk' as Hs' Hfa'. by split_and!.
Qed.

Lemma C4_columns_and_blank_cells_witness :
  read_records int_ascii twice = Ok [recA; recB'; recA']
  ∧ report int_ascii twice
    = Ok (document (aggregate [recA; recB'; recA'])
            [str "ImplA"; str "ImplB"])
  ∧ ∃ (impls : list pystr) (items1 : list ((Z * Z) * impl_dict))
      (d : impl_dict),
      str "ImplA" ∈ impls
      ∧ ((12, 1), d) ∈ items1
      ∧ d !! Some (str "ImplA") = None.
Proof.
  assert (read_records int_ascii twice = Ok [recA; recB'; recA']) as H1
    by by_evaluation.
  assert (report int_ascii twice
          = Ok (document (aggregate [recA; recB'; recA'])
                  [str "ImplA"; str "ImplB"])) as H2
    by by_evaluation.
  split; [exact H1|]. split; [exact H2|].
  destruct (C4_columns_and_blank_cells int_ascii twice _ _ H1 H2)
    as (impls & items1 & items2 & _ & _ & Hcols & Hblank).
  assert (str "ImplA" ∈ impls) as Hin
    by (apply Hcols; exists recA; split; [by left|reflexivity]).
  destruct (Hblank recB' facets_name items1 (str "ImplA"))
    as (d & Hd & Hcell).
  - right; by left.
  - reflexivity.
  - left. split; reflexivity.
  - exact Hin.
  - apply Forall_forall. by_decision.
  - exists impls, items1, d. split; [exact Hin|]. split; [exact Hd|exact Hcell].
Defined.
(** C5, as the code has it.  Records of a function other than facets()
    and facetAddresses() raise nothing and give the document no table, no
    row and no measurement: the document of a run is the one assembled
    from the records of the two functions alone, under the columns found
    in all records.  Such a record reaches the tables only through its
    implementation name, which is a column of both. *)
Theorem C5_other_functions_only_add_columns parse_int lines recs :
  read_records parse_int lines = Ok recs →
  Forall (λ r, is_Some (rec_impl r)) recs →
  ∃ impls,
    implementations (aggregate recs) = Ok impls
    ∧ (∀ name, name ∈ impls ↔ ∃ r, r ∈ recs ∧ rec_impl r = Some name)
    ∧ report parse_int lines
      = Ok (document
              (aggregate (List.filter (λ r, rendered (rec_func r)) recs))
              impls).
Proof.
  intros Hrecs Hall.
  destruct (report_total _ _ _ Hrecs Hall) as (impls & Hi & Hdoc).
  exists impls. destruct (implementations_Ok _ _ Hi) as (_ & _ & _ & Hin).
  split_and!; [done| |by rewrite <- document_rendered_only].
  intros name. by rewrite Hin, elem_of_impl_set_aggregate.
Qed.

Lemma C5_other_functions_only_add_columns_witness :
  read_records int_ascii with_unknown = Ok [recA; recB; recZ]
  ∧ Forall (λ r, is_Some (rec_impl r)) [recA; recB; recZ]
  ∧ ∃ impls,
      (str "ImplZ" ∈ impls)
      ∧ report int_ascii with_unknown
        = Ok (document (aggregate [recA; recB]) impls).
Proof.
  assert (read_records int_ascii with_unknown = Ok [recA; recB; recZ])
    as H1 by by_evaluation.
  assert (Forall (λ r, is_Some (rec_impl r)) [recA; recB; recZ])
    as H2 by (repeat constructor; by eexists).
  split; [exact H1|]. split; [exact H2|].
  destruct (C5_other_functions_only_add_columns int_ascii with_unknown _ H1 H2)
    as (impls & _ & Hcols & Hdoc).
  exists impls. split.
  - apply Hcols. exists recZ. split; [do 2 right; by left|reflexivity].
  - exact Hdoc.
Defined.

(** C5, as stated, fails: a record of unknownFn() measured by ImplZ gives
    both tables the column ImplZ. *)
Lemma C5_counterexample :
  run_table int_ascii two_impls facets_name
    = Ok ([str "ImplA"; str "ImplB"],
          [[str "5/2"; str "100,000"; str "120,000"]])
  ∧ run_table int_ascii with_unknown facets_name
    = Ok ([str "ImplA"; str "ImplB"; str "ImplZ"],
          [[str "5/2"; str "100,000"; str "120,000"; []]])
  ∧ run_table int_ascii with_unknown facetAddresses_name
    = Ok ([str "ImplA"; str "ImplB"; str "ImplZ"], [])
  ∧ report int_ascii with_unknown ≠ report int_ascii two_impls.
Proof.
  split; [by_evaluation|]. split; [by_evaluation|]. split; [by_evaluation|].
  intros H. vm_compute in H. discriminate H.
Qed.

(** C6, as the code has it.  For the two rows (ImplA, facets(), Facets 2,
    Selectors 5, 100000) and (ImplB, facets(), Facets 2, Selectors 5,
    120000) the facets() table has the columns ImplA, ImplB and one data
    row, whose cells are 5/2 (selectors before facets, as the header
    Selectors/Facets says), 100,000 and 120,000. *)
Theorem C6_example_table :
  run_table int_ascii two_impls facets_name
    = Ok ([str "ImplA"; str "ImplB"],
          [[str "5/2"; str "100,000"; str "120,000"]])
  ∧ report int_ascii two_impls
    = Ok (preamble ++ str "## facets() Function Gas Costs

| Selectors/Facets | ImplA | ImplB |
|----------------|-----|-----|
| 5/2 | 100,000 | 120,000 |

---
## facetAddresses() Function Gas Costs

| Selectors/Facets | ImplA | ImplB |
|----------------|-----|-----|

---
").
Proof. split; by_evaluation. Qed.

(** C6, as stated, fails: the label of the row is not 2/5. *)
Lemma C6_counterexample :
  run_table int_ascii two_impls facets_name
  ≠ Ok ([str "ImplA"; str "ImplB"],
        [[str "2/5"; str "100,000"; str "120,000"]]).
Proof. intros H. vm_compute in H. discriminate H. Qed.

(** C7, as the code has it.  When the file has a row that is not a blank
    line, and either the header lacks one of the five names or a Facets,
    Selectors or GasUsed field of the row is missing or is not a numeral,
    the loop raises, the script ends there, and the output file and the
    console are as they were. *)
Theorem C7_unreadable_row_aborts parse_int fieldnames rest line w :
  line ∈ rest →
  line ≠ [] →
  (∃ name, name ∈ header ∧ name ∉ fieldnames)
  ∨ (∃ name,
       name ∈ [str "Facets"; str "Selectors"; str "GasUsed"]
       ∧ (make_row fieldnames line !! name = Some None
          ∨ ∃ s, make_row fieldnames line !! name = Some (Some s)
                 ∧ parse_int s = None)) →
  ∃ e,
    ingest parse_int (fieldnames :: rest) = Raise e
    ∧ report parse_int (fieldnames :: rest) = Raise e
    ∧ main parse_int (fieldnames :: rest) w = (w, Uncaught e).
Proof.
  intros Hin Hne Hbad.
  pose proof (elem_of_DictReader fieldnames _ _ Hin Hne) as Hrow.
  assert (∀ r, parse_row parse_int (make_row fieldnames line) ≠ Ok r) as Hfail.
  { intros r Hr. apply parse_row_Ok in Hr
      as (Hi & Hf & (fs & Hfs & Hfz) & (ss & Hss & Hsz) & (gs & Hgs & Hgz)).
    destruct Hbad as [(name & Hname & Habs)|(name & Hname & Hval)].
    - apply (make_row_None fieldnames line) in Habs. unfold header in Hname.
      repeat (apply elem_of_cons in Hname as [->|Hname]; [congruence|]).
      by apply not_elem_of_nil in Hname.
    - repeat (apply elem_of_cons in Hname as [->|Hname];
              [destruct Hval as [?|(? & ? & ?)]; congruence|]).
      by apply not_elem_of_nil in Hname. }
  assert (∃ e, ingest parse_int (fieldnames :: rest) = Raise e) as [e He].
  { unfold ingest. rewrite ingest_from_records. unfold mbind, res_bind.
    destruct (parse_rows parse_int (DictReader (fieldnames :: rest)))
      as [recs|e] eqn:E; [|by exists e].
    destruct (parse_rows_Ok _ _ _ _ E Hrow) as [r Hr]. by destruct (Hfail r). }
  exists e. split; [done|].
  assert (report parse_int (fieldnames :: rest) = Raise e) as Hrep
    by (unfold report, mbind, res_bind; by rewrite He).
  split; [done|]. unfold main. by rewrite Hrep.
Qed.

Lemma C7_unreadable_row_aborts_witness :
  [str "ImplA"; str "facets()"; str "2"; str "5"; str "abc"]
    ∈ [[str "ImplA"; str "facets()"; str "2"; str "5"; str "abc"]]
  ∧ [str "ImplA"; str "facets()"; str "2"; str "5"; str "abc"] ≠ []
  ∧ make_row header
      [str "ImplA"; str "facets()"; str "2"; str "5"; str "abc"]
      !! str "GasUsed" = Some (Some (str "abc"))
  ∧ int_ascii (str "abc") = None
  ∧ ∃ e, main int_ascii bad_gas empty_world = (empty_world, Uncaught e).
Proof.
  assert (make_row header
            [str "ImplA"; str "facets()"; str "2"; str "5"; str "abc"]
            !! str "GasUsed" = Some (Some (str "abc"))) as H1
    by by_evaluation.
  assert (int_ascii (str "abc") = None) as H2 by by_evaluation.
  split; [apply list_elem_of_here|]. split; [discriminate|].
  split; [exact H1|]. split; [exact H2|].
  destruct (C7_unreadable_row_aborts int_ascii header
              [[str "ImplA"; str "facets()"; str "2"; str "5"; str "abc"]]
              [str "ImplA"; str "facets()"; str "2"; str "5"; str "abc"]
              empty_world)
    as (e & _ & _ & Hmain).
  - apply list_elem_of_here.
  - discriminate.
  - right. exists (str "GasUsed"). split.
    + apply list_elem_of_further, list_elem_of_further, list_elem_of_here.
    + right. exists (str "abc"). split; [exact H1|exact H2].
  - exists e. exact Hmain.
Defined.

(** C7, as stated, fails: under a header without the five names and with
    no row below it the loop has nothing to read, and the report is
    written. *)
Lemma C7_counterexample :
  Forall (λ name, name ∉ [str "Foo"; str "Bar"]) header
  ∧ (main int_ascii header_only empty_world).2 = Success
  ∧ output_file (main int_ascii header_only empty_world).1
    = Some (preamble ++ str "## facets() Function Gas Costs

| Selectors/Facets |  |
|----------------|

---
## facetAddresses() Function Gas Costs

| Selectors/Facets |  |
|----------------|

---
").
Proof.
  split; [by_decision|]. split; by_evaluation.
Qed.

(** C8.  Two runs on the same input end the same way, whatever order the
    set of names and the dicts are iterated in: with the same exception,
    or with the same document, written to the output file. *)
Theorem C8_deterministic parse_int lines out1 out2 w :
  runs parse_int lines out1 →
  runs parse_int lines out2 →
  out1 = out2
  ∧ finish out1 w = finish out2 w
  ∧ finish out1 w = main parse_int lines w.
Proof.
  intros H1 H2. apply runs_unique in H1 as ->. by apply runs_unique in H2 as ->.
Qed.

Lemma C8_deterministic_witness :
  runs int_ascii two_impls (report int_ascii two_impls)
  ∧ runs int_ascii two_impls
      (Ok (preamble
             ++ join [10%N]
                  (table_lines_from facets_name
                     (reverse (map_to_list
                                 (default ∅ (aggregate [recA; recB]
                                               !! Some facets_name))))
                     [str "ImplA"; str "ImplB"])
             ++ join [10%N]
                  (table_lines_from facetAddresses_name
                     (map_to_list
                        (default ∅ (aggregate [recA; recB]
                                      !! Some facetAddresses_name)))
                     [str "ImplA"; str "ImplB"])))
  ∧ finish (report int_ascii two_impls) empty_world
    = main int_ascii two_impls empty_world.
Proof.
  assert (runs int_ascii two_impls (report int_ascii two_impls)) as H1
    by apply runs_report.
  assert (runs int_ascii two_impls
      (Ok (preamble
             ++ join [10%N]
                  (table_lines_from facets_name
                     (reverse (map_to_list
                                 (default ∅ (aggregate [recA; recB]
                                               !! Some facets_name))))
                     [str "ImplA"; str "ImplB"])
             ++ join [10%N]
                  (table_lines_from facetAddresses_name
                     (map_to_list
                        (default ∅ (aggregate [recA; recB]
                                      !! Some facetAddresses_name)))
                     [str "ImplA"; str "ImplB"])))) as H2.
  { apply (runs_writes int_ascii two_impls (aggregate [recA; recB])
             (reverse (elements (impl_set (aggregate [recA; recB]))))).
    - apply ingest_records. by_evaluation.
    - apply reverse_Permutation.
    - by_evaluation.
    - apply reverse_Permutation.
    - reflexivity. }
  split; [exact H1|]. split; [exact H2|].
  destruct (C8_deterministic int_ascii two_impls _ _ empty_world H1 H2)
    as (_ & _ & H).
  exact H.
Defined.

(** C9.  In a run that gets to the end, the table of a function without
    a record in the input is rendered all the same: its text is the
    heading and a blank line, the header row, the separator row, and
    after them, with no data row between, the blank line and the rule
    that end every table. *)
Theorem C9_table_without_rows (parse_int : pystr → option Z)
    (lines : list csv_line) (recs : list record) (doc fname : pystr) :
  read_records parse_int lines = Ok recs →
  report parse_int lines = Ok doc →
  fname = facets_name ∨ fname = facetAddresses_name →
  (∀ r, r ∈ recs → rec_func r ≠ Some fname) →
  let line := λ cells : list pystr,
    concat ((λ c, str "| " ++ c ++ str " ") <$> cells) ++ str "|" in
  let table := λ (name : pystr) (impls : list pystr)
                 (items : list ((Z * Z) * impl_dict)),
    str "## " ++ name ++ str " Function Gas Costs" ++ [10%N; 10%N]
    ++ line (str "Selectors/Facets"
               :: match impls with [] => [[]] | _ => impls end)
    ++ [10%N]
    ++ (concat ((λ h, str "|" ++ replicate (length h) 45%N)
                  <$> (str "Selectors/Facets" :: impls)) ++ str "|")
    ++ [10%N]
    ++ concat ((λ it : (Z * Z) * impl_dict,
                  line ((format_int it.1.1 ++ str "/" ++ format_int it.1.2)
                          :: ((λ impl, match it.2 !! Some impl with
                                       | Some val => format_thousands val
                                       | None => []
                                       end) <$> impls))
                    ++ [10%N]) <$> items)
    ++ [10%N] ++ str "---" ++ [10%N] in
  ∃ (impls : list pystr) (items1 items2 : list ((Z * Z) * impl_dict)),
    doc = preamble ++ table facets_name impls items1
            ++ table facetAddresses_name impls items2
    ∧ ((fname = facets_name ∧ items1 = [])
       ∨ (fname = facetAddresses_name ∧ items2 = []))
    ∧ table fname impls []
      = str "## " ++ fname ++ str " Function Gas Costs" ++ [10%N; 10%N]
        ++ line (str "Selectors/Facets"
                   :: match impls with [] => [[]] | _ => impls end)
        ++ [10%N]
        ++ (concat ((λ h, str "|" ++ replicate (length h) 45%N)
                      <$> (str "Selectors/Facets" :: impls)) ++ str "|")
        ++ [10%N]
        ++ [10%N] ++ str "---" ++ [10%N].
Proof.
  intros Hrecs Hdoc Hfname Hnone line table.
  destruct (report_view _ _ _ _ Hrecs Hdoc) as (impls & Hdata & Himpls & ->).
  assert (rows_of (aggregate recs) fname = ∅) as Hempty.
  { apply map_eq. intros k. rewrite rows_of_lookup, lookup_empty.
    apply bucket_aggregate_none, Forall_forall. intros r Hr [Hf _].
    by apply (Hnone r). }
  exists impls,
    (sorted_item_list (map_to_list (rows_of (aggregate recs) facets_name))),
    (sorted_item_list
       (map_to_list (rows_of (aggregate recs) facetAddresses_name))).
  split.
  { subst line table. cbv beta. unfold document.
    by rewrite !format_table_text. }
  split; [|reflexivity].
  destruct Hfname as [->| ->]; [left|right];
    (split; [reflexivity|]); by rewrite Hempty, map_to_list_empty.
Qed.

Lemma C9_table_without_rows_witness :
  read_records int_ascii two_impls = Ok [recA; recB]
  ∧ report int_ascii two_impls
    = Ok (document (aggregate [recA; recB]) [str "ImplA"; str "ImplB"])
  ∧ Forall (λ r, rec_func r ≠ Some facetAddresses_name) [recA; recB]
  ∧ ∃ (impls : list pystr) (items1 items2 : list ((Z * Z) * impl_dict)),
      items2 = [].
Proof.
  assert (read_records int_ascii two_impls = Ok [recA; recB]) as H1
    by by_evaluation.
  assert (report int_ascii two_impls
          = Ok (document (aggregate [recA; recB])
                  [str "ImplA"; str "ImplB"])) as H2
    by by_evaluation.
  assert (Forall (λ r, rec_func r ≠ Some facetAddresses_name) [recA; recB])
    as H3 by by_decision.
  split; [exact H1|]. split; [exact H2|]. split; [exact H3|].
  destruct (C9_table_without_rows int_ascii two_impls _ _
              facetAddresses_name H1 H2 (or_intror eq_refl)
              (proj1 (Forall_forall _ _) H3))
    as (impls & items1 & items2 & Hdoc & Hrows & _).
  destruct Hrows as [[Habs _]|[_ Hrows]].
  { exfalso. revert Habs. by_decision. }
  exists impls, items1, items2. exact Hrows.
Defined.




(** * Further properties of the script *)

(** ** The assignment of the loop *)

(** X1.  [data[func][key][impl] = gas] stores the measurement under its
    tuple, creating the dicts of the function and of the key pair where
    they are missing, and leaves the measurement of every other tuple as
    it was; the only name it can add to the column set is [impl]. *)
Theorem X1_assignment_stores data func key impl gas f k i :
  stored (data_set data func key impl gas) f k i
  = (if decide (func = f ∧ key = k ∧ impl = i) then Some gas
     else stored data f k i)
  ∧ impl_set (data_set data func key impl gas) = {[impl]} ∪ impl_set data.
Proof.
  assert (∀ f k i,
            stored (data_set data func key impl gas) f k i
            = if decide (func = f ∧ key = k ∧ impl = i) then Some gas
              else stored data f k i) as Hstored.
  { intros f' k' i'. destruct key as [s fa].
    exact (stored_add_record data (Rec impl func fa s gas) f' k' i'). }
  split; [apply Hstored|].
  apply set_eq. intros x. rewrite elem_of_union, elem_of_singleton.
  rewrite !elem_of_impl_set. split.
  - intros (f' & k' & Hx). rewrite Hstored in Hx.
    case_decide as Heq; [left; by destruct Heq as (_ & _ & ->)|right; eauto].
  - intros [->|(f' & k' & Hx)].
    + exists func, key. rewrite Hstored. by rewrite decide_True.
    + exists f', k'. rewrite Hstored. by case_decide.
Qed.


(** ** Reading the file *)

Lemma DictReader_app (fieldnames : csv_line) (a b : list csv_line) :
  DictReader (fieldnames :: a ++ b)
  = DictReader (fieldnames :: a) ++ DictReader (fieldnames :: b).
Proof. unfold DictReader. by rewrite List.filter_app, fmap_app. Qed.

Lemma parse_rows_app (parse_int : pystr → option Z) (a b : list row_dict) :
  parse_rows parse_int (a ++ b)
  = ra ← parse_rows parse_int a; rb ← parse_rows parse_int b; Ok (ra ++ rb).
Proof.
  induction a as [|row a IH]; simpl.
  - unfold mbind, res_bind. by destruct (parse_rows parse_int b).
  - unfold mbind, res_bind in *.
    destruct (parse_row parse_int row); [|done]. rewrite IH.
    destruct (parse_rows parse_int a); [|done].
    by destruct (parse_rows parse_int b).
Qed.

Lemma parse_rows_Raise (parse_int : pystr → option Z) (rows : list row_dict)
    (e : exn) :
  parse_rows parse_int rows = Raise e →
  ∃ row, row ∈ rows ∧ parse_row parse_int row = Raise e.
Proof.
  induction rows as [|row rows IH]; simpl; [done|].
  unfold mbind, res_bind.
  destruct (parse_row parse_int row) as [r|e'] eqn:E.
  - destruct (parse_rows parse_int rows) as [rs|e'']; [done|].
    intros [= <-]. destruct (IH eq_refl) as (row' & Hin & Hrow').
    exists row'. split; [by right|done].
  - intros [= <-]. exists row. split; [by left|done].
Qed.

Lemma unreadable_report parse_int lines e :
  read_records parse_int lines = Raise e →
  ingest parse_int lines = Raise e ∧ report parse_int lines = Raise e.
Proof.
  unfold read_records. intros H.
  assert (ingest parse_int lines = Raise e) as Hi
    by (unfold ingest; rewrite ingest_from_records; by rewrite H).
  split; [done|]. unfold report. by rewrite Hi.
Qed.

Lemma report_records parse_int lines recs :
  read_records parse_int lines = Ok recs →
  report parse_int lines
  = impls ← implementations (aggregate recs);
    Ok (document (aggregate recs) impls).
Proof.
  intros H%ingest_records. unfold report. rewrite H.
  unfold mbind, res_bind.
  destruct (implementations (aggregate recs)); [|done].
  by rewrite assemble_tables.
Qed.

(** X2.  The loop stops at the first row that cannot be read: when the
    rows before a row are read and that row raises an exception, the
    script ends with this exception, whatever the rows after it hold, and
    the output file and the console stay as they were. *)
Theorem X2_first_unreadable_row_decides parse_int fieldnames good bad rest
    recs e w :
  read_records parse_int (fieldnames :: good) = Ok recs →
  bad ≠ [] →
  parse_row parse_int (make_row fieldnames bad) = Raise e →
  ingest parse_int (fieldnames :: good ++ bad :: rest) = Raise e
  ∧ report parse_int (fieldnames :: good ++ bad :: rest) = Raise e
  ∧ main parse_int (fieldnames :: good ++ bad :: rest) w = (w, Uncaught e).
Proof.
  intros Hgood Hbad He.
  assert (read_records parse_int (fieldnames :: good ++ bad :: rest)
          = Raise e) as Hread.
  { unfold read_records in *. rewrite DictReader_app, parse_rows_app, Hgood.
    destruct bad as [|x bad]; [done|]. simpl.
    unfold mbind, res_bind. by rewrite He. }
  destruct (unreadable_report _ _ _ Hread) as [Hi Hr].
  split; [done|]. split; [done|]. unfold main. by rewrite Hr.
Qed.

Lemma X2_first_unreadable_row_decides_witness :
  read_records int_ascii
    [header; [str "ImplA"; str "facets()"; str "2"; str "5"; str "100000"]]
    = Ok [recA]
  ∧ [str "ImplB"; str "facets()"; str "2"; str "5"; str "abc"] ≠ []
  ∧ parse_row int_ascii
      (make_row header
         [str "ImplB"; str "facets()"; str "2"; str "5"; str "abc"])
    = Raise ValueError
  ∧ main int_ascii
      [header;
       [str "ImplA"; str "facets()"; str "2"; str "5"; str "100000"];
       [str "ImplB"; str "facets()"; str "2"; str "5"; str "abc"];
       [str "ImplC"]]
      empty_world
    = (empty_world, Uncaught ValueError).
Proof.
  assert (read_records int_ascii
            [header;
             [str "ImplA"; str "facets()"; str "2"; str "5"; str "100000"]]
          = Ok [recA]) as H1 by by_evaluation.
  assert (parse_row int_ascii
            (make_row header
               [str "ImplB"; str "facets()"; str "2"; str "5"; str "abc"])
          = Raise ValueError) as H2 by by_evaluation.
  assert ([str "ImplB"; str "facets()"; str "2"; str "5"; str "abc"] ≠ [])
    as Hne by discriminate.
  split; [exact H1|]. split; [exact Hne|]. split; [exact H2|].
  destruct (X2_first_unreadable_row_decides int_ascii header
              [[str "ImplA"; str "facets()"; str "2"; str "5"; str "100000"]]
              [str "ImplB"; str "facets()"; str "2"; str "5"; str "abc"]
              [[str "ImplC"]] [recA] ValueError empty_world H1 Hne H2)
    as (_ & _ & Hmain).
  exact Hmain.
Defined.


(** X3.  The script gets to the end exactly when every row that is not a
    blank line can be read (the five names are in the header and the
    three numbers are numerals) and has a value for its implementation;
    the function names play no part in this. *)
Theorem X3_run_succeeds_iff parse_int lines :
  (∃ doc, report parse_int lines = Ok doc) ↔
  ∃ recs, read_records parse_int lines = Ok recs
          ∧ Forall (λ r, is_Some (rec_impl r)) recs.
Proof.
  split.
  - intros [doc Hdoc].
    apply report_Ok in Hdoc as (data & impls & Hd & Hi & _).
    destruct (ingest_ok_records _ _ _ Hd) as (recs & Hrecs & ->).
    exists recs. split; [done|].
    destruct (implementations_Ok _ _ Hi) as (_ & _ & Hnone & _).
    apply Forall_forall. intros r Hr.
    destruct (rec_impl r) as [impl|] eqn:E; [by eexists|].
    destruct Hnone. apply elem_of_impl_set_aggregate. eauto.
  - intros (recs & Hrecs & Hall).
    destruct (report_total _ _ _ Hrecs Hall) as (impls & _ & Hdoc). eauto.
Qed.

Lemma X3_run_succeeds_iff_witness :
  read_records int_ascii two_impls = Ok [recA; recB]
  ∧ Forall (λ r, is_Some (rec_impl r)) [recA; recB]
  ∧ ∃ doc, report int_ascii two_impls = Ok doc.
Proof.
  assert (read_records int_ascii two_impls = Ok [recA; recB]) as H1
    by by_evaluation.
  assert (Forall (λ r, is_Some (rec_impl r)) [recA; recB]) as H2
    by (repeat constructor; by eexists).
  split; [exact H1|]. split; [exact H2|].
  apply (proj2 (X3_run_succeeds_iff int_ascii two_impls)).
  exists [recA; recB]. split; [exact H1|exact H2].
Defined.



Lemma parse_row_no_KeyError (parse_int : pystr → option Z) (row : row_dict) :
  (∀ name, name ∈ header → is_Some (row !! name)) →
  parse_row parse_int row ≠ Raise KeyError.
Proof.
  intros Hall.
  assert (∀ name, name ∈ header → ∃ v, getitem row name = Ok v) as Hget.
  { intros name [v Hv]%Hall. exists v. unfold getitem. by rewrite Hv. }
  assert (∀ v, int parse_int v ≠ Raise KeyError) as Hint.
  { intros [s|]; unfold int; [by destruct (parse_int s)|done]. }
  unfold parse_row, mbind, res_bind.
  destruct (Hget (str "Implementation")) as [v1 ->];
    [apply list_elem_of_here|].
  destruct (Hget (str "Function")) as [v2 ->];
    [apply list_elem_of_further, list_elem_of_here|].
  destruct (Hget (str "Facets")) as [v3 ->];
    [do 2 apply list_elem_of_further; apply list_elem_of_here|].
  destruct (int parse_int v3) as [z3|e3] eqn:E3;
    [|intros [= ->]; by apply (Hint v3)].
  destruct (Hget (str "Selectors")) as [v4 ->];
    [do 3 apply list_elem_of_further; apply list_elem_of_here|].
  destruct (int parse_int v4) as [z4|e4] eqn:E4;
    [|intros [= ->]; by apply (Hint v4)].
  destruct (Hget (str "GasUsed")) as [v5 ->];
    [do 4 apply list_elem_of_further; apply list_elem_of_here|].
  destruct (int parse_int v5) as [z5|e5] eqn:E5;
    [done|intros [= ->]; by apply (Hint v5)].
Qed.

(** X5.  Under a header that has the five names no lookup of a field can
    fail: whatever the rows hold, the script does not end with
    [KeyError]. *)
Theorem X5_complete_header_no_KeyError parse_int fieldnames rest :
  (∀ name, name ∈ header → name ∈ fieldnames) →
  ingest parse_int (fieldnames :: rest) ≠ Raise KeyError
  ∧ report parse_int (fieldnames :: rest) ≠ Raise KeyError.
Proof.
  intros Hnames.
  assert (ingest parse_int (fieldnames :: rest) ≠ Raise KeyError) as Hi.
  { unfold ingest. rewrite ingest_from_records. unfold mbind, res_bind.
    destruct (parse_rows parse_int (DictReader (fieldnames :: rest)))
      as [recs|e] eqn:E; [done|]. intros [= ->].
    destruct (parse_rows_Raise _ _ _ E) as (row & Hrow & He).
    unfold DictReader in Hrow.
    apply list_elem_of_fmap in Hrow as (line & -> & _).
    revert He. apply parse_row_no_KeyError. intros name Hname.
    destruct (make_row fieldnames line !! name) eqn:El; [by eexists|].
    apply make_row_None in El. destruct El. by apply Hnames. }
  split; [done|]. unfold report, mbind, res_bind.
  destruct (ingest parse_int (fieldnames :: rest)) as [data|e] eqn:E.
  - destruct (implementations data) as [impls|e] eqn:E'; [done|].
    apply sorted_names_Raise in E' as [_ ->]. done.
  - intros [= ->]. by destruct Hi.
Qed.

Lemma X5_complete_header_no_KeyError_witness :
  Forall (λ name, name ∈ shuffled) header
  ∧ report int_ascii [shuffled; [str "x"]] ≠ Raise KeyError.
Proof.
  assert (Forall (λ name, name ∈ shuffled) header) as H by by_decision.
  split; [exact H|].
  exact (proj2 (X5_complete_header_no_KeyError int_ascii shuffled [[str "x"]]
                  (proj1 (Forall_forall _ _) H))).
Defined.


(** ** Fields are read by name *)

Lemma fold_insert_other (kvs : list (pystr * option pystr)) (d : row_dict)
    (name : pystr) :
  name ∉ kvs.*1 →
  fold_left (λ d kv, <[kv.1 := kv.2]> d) kvs d !! name = d !! name.
Proof.
  revert d. induction kvs as [|[k v] kvs IH]; intros d; csimpl; [done|].
  rewrite not_elem_of_cons. intros [Hne Hnin].
  rewrite IH by done. by rewrite lookup_insert_ne.
Qed.

Lemma fold_insert_field (fieldnames : list pystr) (line : csv_line)
    (d : row_dict) (i : nat) (name : pystr) :
  NoDup fieldnames →
  fieldnames !! i = Some name →
  fold_left (λ d kv, <[kv.1 := kv.2]> d) (zip_fields fieldnames line) d
    !! name = Some (line !! i).
Proof.
  revert line d i. induction fieldnames as [|k ks IH]; intros line d i;
    [done|].
  rewrite NoDup_cons. intros [Hnin Hnd] Hi.
  destruct i as [|i]; simpl in Hi.
  - injection Hi as ->. destruct line as [|v vs]; simpl;
      (rewrite fold_insert_other by (by rewrite zip_fields_names));
      by rewrite lookup_insert_eq.
  - destruct line as [|v vs]; simpl.
    + by rewrite (IH [] _ i Hnd Hi).
    + by rewrite (IH vs _ i Hnd Hi).
Qed.

Lemma make_row_field (fieldnames : list pystr) (line : csv_line) (i : nat)
    (name : pystr) :
  NoDup fieldnames →
  fieldnames !! i = Some name →
  make_row fieldnames line !! name = Some (line !! i).
Proof. apply fold_insert_field. Qed.

(** X6.  The fields of a row are found by the names of the header, not
    by their places: under a header without repeated names, what the loop
    reads from a row are the fields at the places of the five names,
    whatever order the columns come in and whatever other columns there
    are; a row that ends before one of these places gives [None] there. *)
Theorem X6_fields_by_name parse_int fieldnames line (a b c d e : nat) :
  NoDup fieldnames →
  fieldnames !! a = Some (str "Implementation") →
  fieldnames !! b = Some (str "Function") →
  fieldnames !! c = Some (str "Facets") →
  fieldnames !! d = Some (str "Selectors") →
  fieldnames !! e = Some (str "GasUsed") →
  parse_row parse_int (make_row fieldnames line)
  = facets ← int parse_int (line !! c);
    selectors ← int parse_int (line !! d);
    gas ← int parse_int (line !! e);
    Ok (Rec (line !! a) (line !! b) facets selectors gas).
Proof.
  intros Hnd Ha Hb Hc Hd He. unfold parse_row, getitem.
  rewrite (make_row_field _ line _ _ Hnd Ha), (make_row_field _ line _ _ Hnd Hb),
    (make_row_field _ line _ _ Hnd Hc), (make_row_field _ line _ _ Hnd Hd),
    (make_row_field _ line _ _ Hnd He).
  done.
Qed.

Lemma X6_fields_by_name_witness :
  NoDup shuffled
  ∧ shuffled !! 3%nat = Some (str "Implementation")
  ∧ shuffled !! 2%nat = Some (str "Function")
  ∧ shuffled !! 5%nat = Some (str "Facets")
  ∧ shuffled !! 4%nat = Some (str "Selectors")
  ∧ shuffled !! 0%nat = Some (str "GasUsed")
  ∧ parse_row int_ascii
      (make_row shuffled
         [str "100000"; str "first run"; str "facets()"; str "ImplA";
          str "5"; str "2"])
    = Ok recA.
Proof.
  assert (NoDup shuffled) as H by by_decision.
  split; [exact H|]. do 5 (split; [reflexivity|]).
  exact (X6_fields_by_name int_ascii shuffled
           [str "100000"; str "first run"; str "facets()"; str "ImplA";
            str "5"; str "2"] 3 2 5 4 0 H eq_refl eq_refl eq_refl eq_refl
           eq_refl).
Defined.

(** ** A file without rows *)

(** X7.  A file without a row to read (nothing at all, or a header
    followed by nothing but blank lines) is no error, whatever its header
    is: the report is written, with the preamble and two tables that have
    no column and no data row.  The header row of such a table has an
    empty second cell which its separator row does not have. *)
Theorem X7_file_without_rows parse_int lines w :
  Forall (λ line, line = []) (tail lines) →
  report parse_int lines
    = Ok (preamble ++ str "## facets() Function Gas Costs

| Selectors/Facets |  |
|----------------|

---
## facetAddresses() Function Gas Costs

| Selectors/Facets |  |
|----------------|

---
")
  ∧ (main parse_int lines w).2 = Success
  ∧ output_file (main parse_int lines w).1
    = Some (document ∅ []).
Proof.
  intros Hblank.
  assert (DictReader lines = []) as Hrows.
  { destruct lines as [|fieldnames rest]; [done|]. simpl in *.
    induction Hblank as [|line rest -> _ IH]; [done|]. exact IH. }
  assert (report parse_int lines = Ok (document ∅ [])) as Hrep.
  { unfold report, ingest. rewrite Hrows. by_evaluation. }
  split; [rewrite Hrep; by_evaluation|].
  unfold main. rewrite Hrep. split; reflexivity.
Qed.

Lemma X7_file_without_rows_witness :
  Forall (λ line, line = []) (tail [[str "Foo"; str "Bar"]; []; []])
  ∧ (main int_ascii [[str "Foo"; str "Bar"]; []; []] empty_world).2 = Success.
Proof.
  assert (Forall (λ line : csv_line, line = [])
            (tail [[str "Foo"; str "Bar"]; []; []])) as H
    by (repeat constructor).
  split; [exact H|].
  destruct (X7_file_without_rows int_ascii [[str "Foo"; str "Bar"]; []; []]
              empty_world H) as (_ & Hexit & _).
  exact Hexit.
Defined.


(** ** What the tables hold *)

Lemma stored_aggregate_last recs f k i g :
  stored (aggregate recs) f k i = Some g ↔
  ∃ before r after,
    recs = before ++ r :: after
    ∧ (rec_func r = f ∧ rec_key r = k ∧ rec_impl r = i)
    ∧ rec_gas r = g
    ∧ Forall (λ x, ¬ same_tuple x r) after.
Proof.
  split.
  - intros Hs.
    destruct (stored_aggregate_origin recs f k i (mk_is_Some _ _ Hs))
      as (r & Hr & Hf & Hk & Hi).
    destruct (last_of_tuple recs r Hr)
      as (before & r' & after & -> & (Hf' & Hk' & Hi') & Hlast).
    exists before, r', after. split; [done|].
    split; [split_and!; congruence|]. split; [|done].
    pose proof (stored_last before r' after Hlast) as Hs'.
    rewrite Hf', Hk', Hi', Hf, Hk, Hi, Hs in Hs'. by injection Hs'.
  - intros (before & r & after & -> & (<- & <- & <-) & <- & Hlast).
    by apply stored_last.
Qed.

Lemma group3_nonempty l : l ≠ [] → group3 l ≠ [].
Proof. by destruct l as [|a [|b [|c [|x rest]]]]. Qed.

Lemma abs_digits_nonempty z : abs_digits z ≠ [].
Proof.
  destruct z as [|p|p]; [done|..]; unfold abs_digits; simpl;
    pose proof (DecimalPos.Unsigned.to_uint_nonnil p);
    by destruct (Pos.to_uint p).
Qed.

Lemma format_thousands_nonempty z : format_thousands z ≠ [].
Proof.
  unfold format_thousands. intros [_ H]%app_eq_nil.
  apply (f_equal reverse) in H. rewrite reverse_involutive in H.
  apply group3_nonempty in H; [done|].
  intros H'. apply (f_equal reverse) in H'.
  rewrite reverse_involutive in H'. by apply abs_digits_nonempty in H'.
Qed.

Lemma cell_empty_iff (d : impl_dict) (impl : pystr) :
  cell d impl = [] ↔ d !! Some impl = None.
Proof.
  unfold cell. destruct (d !! Some impl) as [g|]; [|done].
  split; [|done]. intros H. by apply format_thousands_nonempty in H.
Qed.

(** X8.  A table has one data row for every key pair that a record of
    its function has, and no other row: the keys of its rows are distinct
    and are the key pairs of these records, and the text of the table is
    the heading and a blank line, the header row, the separator row, one
    line for each of these rows, a blank line and the rule. *)
Theorem X8_one_row_per_key (parse_int : pystr → option Z)
    (lines : list csv_line) (recs : list record) (fname : pystr)
    (impls : list pystr) :
  read_records parse_int lines = Ok recs →
  let line := λ cells : list pystr,
    concat ((λ c, str "| " ++ c ++ str " ") <$> cells) ++ str "|" in
  let table := λ (name : pystr) (impls : list pystr)
                 (items : list ((Z * Z) * impl_dict)),
    str "## " ++ name ++ str " Function Gas Costs" ++ [10%N; 10%N]
    ++ line (str "Selectors/Facets"
               :: match impls with [] => [[]] | _ => impls end)
    ++ [10%N]
    ++ (concat ((λ h, str "|" ++ replicate (length h) 45%N)
                  <$> (str "Selectors/Facets" :: impls)) ++ str "|")
    ++ [10%N]
    ++ concat ((λ it : (Z * Z) * impl_dict,
                  line ((format_int it.1.1 ++ str "/" ++ format_int it.1.2)
                          :: ((λ impl, match it.2 !! Some impl with
                                       | Some val => format_thousands val
                                       | None => []
                                       end) <$> impls))
                    ++ [10%N]) <$> items)
    ++ [10%N] ++ str "---" ++ [10%N] in
  ∃ items : list ((Z * Z) * impl_dict),
    ingest parse_int lines = Ok (aggregate recs)
    ∧ data_rows impls (map_to_list (rows_of (aggregate recs) fname))
      = data_row impls <$> items
    ∧ NoDup items.*1
    ∧ (∀ k, k ∈ items.*1 ↔
            ∃ r, r ∈ recs ∧ rec_func r = Some fname ∧ rec_key r = k)
    ∧ format_table fname (rows_of (aggregate recs) fname) impls
      = table fname impls items.
Proof.
  intros Hrecs line table.
  exists (sorted_item_list (map_to_list (rows_of (aggregate recs) fname))).
  split; [by apply ingest_records|]. split; [done|].
  assert (sorted_item_list (map_to_list (rows_of (aggregate recs) fname))
            ≡ₚ map_to_list (rows_of (aggregate recs) fname)) as Hp
    by apply merge_sort_Permutation.
  split; [rewrite Hp; apply NoDup_fst_map_to_list|]. split.
  - intros k. rewrite Hp, <- bucket_aggregate_iff, <- rows_of_lookup.
    rewrite list_elem_of_fmap. split.
    + intros ([k' d] & -> & Hin%elem_of_map_to_list). by eexists.
    + intros [d Hd]. exists (k, d). split; [done|].
      by apply elem_of_map_to_list.
  - subst line table. cbv beta. by rewrite format_table_text.
Qed.

Lemma X8_one_row_per_key_witness :
  read_records int_ascii twice = Ok [recA; recB'; recA']
  ∧ ∃ items,
      data_rows [str "ImplA"; str "ImplB"]
        (map_to_list (rows_of (aggregate [recA; recB'; recA']) facets_name))
      = data_row [str "ImplA"; str "ImplB"] <$> items
      ∧ NoDup items.*1
      ∧ ((5, 2) ∈ items.*1).
Proof.
  assert (read_records int_ascii twice = Ok [recA; recB'; recA']) as H1
    by by_evaluation.
  split; [exact H1|].
  destruct (X8_one_row_per_key int_ascii twice _ facets_name
              [str "ImplA"; str "ImplB"] H1)
    as (items & _ & Hrows & Hnd & Hkeys & _).
  exists items. split; [exact Hrows|]. split; [exact Hnd|].
  apply Hkeys. exists recA. split; [apply list_elem_of_here|].
  split; reflexivity.
Defined.

(** X9.  A cell is the empty text exactly when the input has no record
    for its function, key pair and implementation; a cell that is not
    empty shows the measurement of the last such record.  No value is
    shown that the input does not hold. *)
Theorem X9_cell_content (parse_int : pystr → option Z)
    (lines : list csv_line) (recs : list record) (fname : pystr)
    (k : Z * Z) (d : impl_dict) (impl : pystr) :
  read_records parse_int lines = Ok recs →
  rows_of (aggregate recs) fname !! k = Some d →
  (cell d impl = [] ↔
   ∀ r, r ∈ recs →
        ¬ (rec_func r = Some fname ∧ rec_key r = k
           ∧ rec_impl r = Some impl))
  ∧ (cell d impl ≠ [] →
     ∃ before r after,
       recs = before ++ r :: after
       ∧ (rec_func r = Some fname ∧ rec_key r = k ∧ rec_impl r = Some impl)
       ∧ Forall (λ x, ¬ same_tuple x r) after
       ∧ cell d impl = format_thousands (rec_gas r)).
Proof.
  intros _ Hd.
  assert (d !! Some impl = stored (aggregate recs) (Some fname) k (Some impl))
    as Hcell.
  { rewrite rows_of_lookup in Hd. unfold stored. by rewrite Hd. }
  split.
  - rewrite cell_empty_iff, Hcell. split.
    + intros Hnone r Hr (Hf & Hk & Hi).
      destruct (stored_present recs r Hr) as [g Hg].
      rewrite Hf, Hk, Hi in Hg. congruence.
    + intros Hno.
      destruct (stored (aggregate recs) (Some fname) k (Some impl))
        as [g|] eqn:E; [|done].
      destruct (stored_aggregate_origin recs _ _ _ (mk_is_Some _ _ E))
        as (r & Hr & H). by destruct (Hno r Hr).
  - intros Hne. rewrite cell_empty_iff, Hcell in Hne.
    destruct (stored (aggregate recs) (Some fname) k (Some impl))
      as [g|] eqn:E; [|done].
    destruct (proj1 (stored_aggregate_last _ _ _ _ _) E)
      as (before & r & after & Hsplit & Htuple & Hg & Hlast).
    exists before, r, after. split; [done|]. split; [done|].
    split; [done|]. unfold cell. by rewrite Hcell, Hg.
Qed.


Lemma X9_cell_content_witness :
  read_records int_ascii twice = Ok [recA; recB'; recA']
  ∧ rows_of (aggregate [recA; recB'; recA']) facets_name !! (12, 1)
    = Some {[Some (str "ImplB") := 1234567]}
  ∧ cell {[Some (str "ImplB") := 1234567]} (str "ImplA") = []
  ∧ ∀ r, r ∈ [recA; recB'; recA'] →
         ¬ (rec_func r = Some facets_name ∧ rec_key r = (12, 1)
            ∧ rec_impl r = Some (str "ImplA")).
Proof.
  assert (read_records int_ascii twice = Ok [recA; recB'; recA']) as H1
    by by_evaluation.
  assert (rows_of (aggregate [recA; recB'; recA']) facets_name !! (12, 1)
          = Some {[Some (str "ImplB") := 1234567]}) as H2 by by_evaluation.
  assert (cell {[Some (str "ImplB") := 1234567]} (str "ImplA") = []) as H3
    by by_evaluation.
  split; [exact H1|]. split; [exact H2|]. split; [exact H3|].
  destruct (X9_cell_content int_ascii twice _ facets_name (12, 1) _
              (str "ImplA") H1 H2) as [Hempty _].
  exact (proj1 Hempty H3).
Defined.

(** X10.  No data row is blank: in a run that gets to the end, every
    data row has a measurement in at least one of its columns. *)
Theorem X10_no_blank_row (parse_int : pystr → option Z)
    (lines : list csv_line) (recs : list record) (impls : list pystr)
    (fname : pystr) (k : Z * Z) (d : impl_dict) :
  read_records parse_int lines = Ok recs →
  implementations (aggregate recs) = Ok impls →
  rows_of (aggregate recs) fname !! k = Some d →
  ∃ (j : nat) name,
    impls !! j = Some name
    ∧ data_row impls (k, d) !! S j = Some (cell d name)
    ∧ cell d name ≠ [].
Proof.
  intros _ Himpls Hd.
  assert (is_Some (bucket (aggregate recs) (Some fname) k)) as Hb
    by (rewrite <- rows_of_lookup, Hd; by eexists).
  apply bucket_aggregate_iff in Hb as (r & Hr & Hf & Hk).
  destruct (column_of_record _ _ _ Himpls Hr) as (name & j & Hi & Hj).
  exists j, name. split; [done|].
  split; [by apply data_row_cell|].
  rewrite cell_empty_iff.
  destruct (stored_present recs r Hr) as [g Hg].
  rewrite Hf, Hk, Hi in Hg. unfold stored in Hg.
  rewrite <- rows_of_lookup, Hd in Hg. simpl in Hg. by rewrite Hg.
Qed.

Lemma X10_no_blank_row_witness :
  read_records int_ascii twice = Ok [recA; recB'; recA']
  ∧ implementations (aggregate [recA; recB'; recA'])
    = Ok [str "ImplA"; str "ImplB"]
  ∧ rows_of (aggregate [recA; recB'; recA']) facets_name !! (12, 1)
    = Some {[Some (str "ImplB") := 1234567]}
  ∧ ∃ (j : nat) name,
      [str "ImplA"; str "ImplB"] !! j = Some name
      ∧ cell {[Some (str "ImplB") := 1234567]} name ≠ [].
Proof.
  assert (read_records int_ascii twice = Ok [recA; recB'; recA']) as H1
    by by_evaluation.
  assert (implementations (aggregate [recA; recB'; recA'])
          = Ok [str "ImplA"; str "ImplB"]) as H2 by by_evaluation.
  assert (rows_of (aggregate [recA; recB'; recA']) facets_name !! (12, 1)
          = Some {[Some (str "ImplB") := 1234567]}) as H3 by by_evaluation.
  split; [exact H1|]. split; [exact H2|]. split; [exact H3|].
  destruct (X10_no_blank_row int_ascii twice _ _ facets_name (12, 1) _
              H1 H2 H3) as (j & name & Hj & _ & Hcell).
  exists j, name. split; [exact Hj|exact Hcell].
Defined.

(** ** The order of the rows of the file *)

Lemma stored_consistent (recs : list record) f k i g :
  (∀ r r', r ∈ recs → r' ∈ recs → same_tuple r r' →
           rec_gas r = rec_gas r') →
  stored (aggregate recs) f k i = Some g ↔
  ∃ r, r ∈ recs
       ∧ (rec_func r = f ∧ rec_key r = k ∧ rec_impl r = i)
       ∧ rec_gas r = g.
Proof.
  intros Hcons. rewrite stored_aggregate_last. split.
  - intros (before & r & after & -> & Ht & Hg & _).
    exists r. split; [|done]. apply elem_of_app. right. by left.
  - intros (r & Hr & (Hf & Hk & Hi) & Hg).
    destruct (last_of_tuple recs r Hr)
      as (before & r' & after & Hsplit & Hsame & Hlast).
    exists before, r', after. split; [done|].
    destruct Hsame as (Hf' & Hk' & Hi').
    split; [split_and!; congruence|]. split; [|done].
    rewrite <- Hg. apply Hcons; [|done|by split_and!].
    rewrite Hsplit. apply elem_of_app. right. by left.
Qed.

Lemma option_eq_Some {A} (o o' : option A) :
  (∀ x, o = Some x ↔ o' = Some x) → o = o'.
Proof.
  intros H. destruct o as [x|], o' as [y|]; [|..|done].
  - by apply H.
  - symmetry. by apply H.
  - by apply H.
Qed.

Lemma aggregate_same_records (recs recs' : list record) :
  (∀ r, r ∈ recs ↔ r ∈ recs') →
  (∀ r r', r ∈ recs → r' ∈ recs → same_tuple r r' →
           rec_gas r = rec_gas r') →
  impl_set (aggregate recs) = impl_set (aggregate recs')
  ∧ ∀ fname, rows_of (aggregate recs) fname = rows_of (aggregate recs') fname.
Proof.
  intros Hsame Hcons.
  assert (∀ r r', r ∈ recs' → r' ∈ recs' → same_tuple r r' →
                  rec_gas r = rec_gas r') as Hcons'
    by (intros r r' Hr%Hsame Hr'%Hsame; by apply Hcons).
  assert (∀ f k i, stored (aggregate recs) f k i
                   = stored (aggregate recs') f k i) as Hstored.
  { intros f k i. apply option_eq_Some. intros g.
    rewrite (stored_consistent recs) by done.
    rewrite (stored_consistent recs') by done.
    split; intros (r & Hr & H); exists r; (split; [by apply Hsame|done]). }
  split.
  - apply set_eq. intros i. rewrite !elem_of_impl_set_aggregate.
    split; intros (r & Hr & H); exists r; (split; [by apply Hsame|done]).
  - intros fname. apply map_eq. intros k. rewrite !rows_of_lookup.
    destruct (bucket (aggregate recs) (Some fname) k) as [d|] eqn:E,
      (bucket (aggregate recs') (Some fname) k) as [d'|] eqn:E'.
    + f_equal. apply map_eq. intros i.
      pose proof (Hstored (Some fname) k i) as H. unfold stored in H.
      by rewrite E, E' in H.
    + assert (is_Some (bucket (aggregate recs') (Some fname) k)) as [? ?];
        [|congruence].
      apply bucket_aggregate_iff.
      destruct (proj1 (bucket_aggregate_iff recs (Some fname) k)
                  (mk_is_Some _ _ E)) as (r & Hr & H).
      exists r. split; [by apply Hsame|done].
    + assert (is_Some (bucket (aggregate recs) (Some fname) k)) as [? ?];
        [|congruence].
      apply bucket_aggregate_iff.
      destruct (proj1 (bucket_aggregate_iff recs' (Some fname) k)
                  (mk_is_Some _ _ E')) as (r & Hr & H).
      exists r. split; [by apply Hsame|done].
    + done.
Qed.

(** X11.  As long as no tuple has two different measurements, the report
    depends on the records of the file as a set: two files whose rows
    give the same records, in any order and any number of times, end the
    same way, with the same document. *)
Theorem X11_row_order_irrelevant (parse_int : pystr → option Z)
    (lines lines' : list csv_line) (recs recs' : list record) :
  read_records parse_int lines = Ok recs →
  read_records parse_int lines' = Ok recs' →
  (∀ r, r ∈ recs ↔ r ∈ recs') →
  (∀ r r', r ∈ recs → r' ∈ recs → same_tuple r r' →
           rec_gas r = rec_gas r') →
  report parse_int lines = report parse_int lines'.
Proof.
  intros Hrecs Hrecs' Hsame Hcons.
  rewrite (report_records _ _ _ Hrecs), (report_records _ _ _ Hrecs').
  destruct (aggregate_same_records recs recs' Hsame Hcons) as [Hset Hrows].
  unfold implementations, document. by rewrite Hset, !Hrows.
Qed.

Lemma X11_row_order_irrelevant_witness :
  read_records int_ascii two_impls = Ok [recA; recB]
  ∧ read_records int_ascii two_impls_again = Ok [recB; recA; recB]
  ∧ (∀ r, r ∈ [recA; recB] ↔ r ∈ [recB; recA; recB])
  ∧ (∀ r r', r ∈ [recA; recB] → r' ∈ [recA; recB] → same_tuple r r' →
             rec_gas r = rec_gas r')
  ∧ report int_ascii two_impls = report int_ascii two_impls_again.
Proof.
  assert (read_records int_ascii two_impls = Ok [recA; recB]) as H1
    by by_evaluation.
  assert (read_records int_ascii two_impls_again = Ok [recB; recA; recB])
    as H2 by by_evaluation.
  assert (∀ r, r ∈ [recA; recB] ↔ r ∈ [recB; recA; recB]) as H3.
  { intros r. rewrite !elem_of_cons, elem_of_nil. tauto. }
  assert (∀ r r', r ∈ [recA; recB] → r' ∈ [recA; recB] → same_tuple r r' →
                  rec_gas r = rec_gas r') as H4.
  { intros r r'. rewrite !elem_of_cons, !elem_of_nil.
    intros [->|[->|[]]] [->|[->|[]]] (_ & _ & Hi);
      [reflexivity|discriminate Hi|discriminate Hi|reflexivity]. }
  split; [exact H1|]. split; [exact H2|]. split; [exact H3|].
  split; [exact H4|].
  exact (X11_row_order_irrelevant int_ascii two_impls two_impls_again
           _ _ H1 H2 H3 H4).
Defined.


(** ** Labels and numbers *)

Lemma format_int_no_slash z : Forall (λ c, c ≠ 47%N) (format_int z).
Proof.
  unfold format_int. apply Forall_app. split.
  - unfold sign_chars. destruct (z <? 0); repeat constructor; done.
  - unfold abs_digits. destruct (Z.to_int z) as [u|u];
      induction u; simpl; constructor; done.
Qed.

Lemma app_sep_inj (sep : N) (a a' b b' : pystr) :
  Forall (λ c, c ≠ sep) a → Forall (λ c, c ≠ sep) a' →
  a ++ sep :: b = a' ++ sep :: b' → a = a' ∧ b = b'.
Proof.
  intros Ha. revert a'. induction Ha as [|x a Hx Ha IH]; intros a' Ha' Heq.
  - destruct Ha' as [|y a' Hy _]; simpl in Heq.
    + by injection Heq as ->.
    + injection Heq as <- _. by destruct Hy.
  - destruct Ha' as [|y a' Hy Ha']; simpl in Heq.
    + injection Heq as -> _. by destruct Hx.
    + injection Heq as -> Heq. destruct (IH a' Ha' Heq) as [-> ->]. done.
Qed.

Lemma format_int_inj z z' : format_int z = format_int z' → z = z'.
Proof.
  intros H. apply (f_equal int_ascii) in H.
  rewrite !int_ascii_format_int in H. by injection H.
Qed.

Lemma label_inj (impls impls' : list pystr) (k k' : Z * Z)
    (d d' : impl_dict) :
  data_row impls (k, d) !! 0%nat = data_row impls' (k', d') !! 0%nat →
  k = k'.
Proof.
  rewrite !data_row_label. simpl. intros [= H].
  change (str "/" ++ ?x) with (47%N :: x) in H.
  apply app_sep_inj in H as [H1 H2]; [|apply format_int_no_slash..].
  apply format_int_inj in H1. apply format_int_inj in H2.
  destruct k, k'. simpl in *. by subst.
Qed.

(** X12.  The labels of the data rows of a table are pairwise different:
    two key pairs never give the same text, so a label tells its row. *)
Theorem X12_labels_distinct (rows : rows_dict) (impls : list pystr) :
  NoDup ((λ cells : list pystr, cells !! 0%nat)
           <$> data_rows impls (map_to_list rows)).
Proof.
  unfold data_rows.
  change (map (data_row impls) ?l) with (data_row impls <$> l).
  rewrite <- list_fmap_compose.
  apply NoDup_fmap_2_strong.
  - intros [k d] [k' d'] Hin Hin' Heq.
    pose proof (label_inj impls impls k k' d d' Heq) as <-. f_equal.
    apply elem_of_sorted_items in Hin, Hin'. congruence.
  - unfold sorted_item_list. rewrite merge_sort_Permutation.
    apply NoDup_map_to_list.
Qed.

(** X13.  The numbers of a table can be read back from its text.
    Without its commas a cell is a numeral that [int] reads as the
    measurement stored for it, and the two parts of a label around the
    stroke are read as the selectors and the facets of its row. *)
Theorem X13_numbers_read_back (impls : list pystr) (k : Z * Z)
    (d : impl_dict) (impl : pystr) (g : Z) :
  d !! Some impl = Some g →
  int_ascii (filter (λ c, c ≠ 44%N) (cell d impl)) = Some g
  ∧ ∃ a b,
      data_row impls (k, d) !! 0%nat = Some (a ++ str "/" ++ b)
      ∧ int_ascii a = Some k.1
      ∧ int_ascii b = Some k.2.
Proof.
  intros Hg. split.
  - unfold cell. rewrite Hg, format_thousands_digits.
    apply int_ascii_format_int.
  - exists (format_int k.1), (format_int k.2).
    split; [done|]. split; apply int_ascii_format_int.
Qed.

Lemma X13_numbers_read_back_witness :
  ({[Some (str "ImplB") := 1234567]} : impl_dict) !! Some (str "ImplB")
    = Some 1234567
  ∧ cell {[Some (str "ImplB") := 1234567]} (str "ImplB") = str "1,234,567"
  ∧ int_ascii (filter (λ c, c ≠ 44%N)
                 (cell {[Some (str "ImplB") := 1234567]} (str "ImplB")))
    = Some 1234567.
Proof.
  assert (({[Some (str "ImplB") := 1234567]} : impl_dict)
            !! Some (str "ImplB") = Some 1234567) as H by by_evaluation.
  split; [exact H|]. split; [by_evaluation|].
  exact (proj1 (X13_numbers_read_back [] (12, 1) _ (str "ImplB") 1234567 H)).
Defined.

(** ** The header row *)

(** X14.  With at least one column the header row is laid out like a
    data row whose cells are "Selectors/Facets" and the implementation
    names.  Without any column it is the row of two cells, the second one
    empty, while the separator row has a single run of dashes. *)
Theorem X14_header_row (impls : list pystr) :
  header_line impls
  = row_line (str "Selectors/Facets"
                :: match impls with [] => [[]] | _ => impls end)
  ∧ separator_line [] = str "|----------------|"
  ∧ header_line [] = str "| Selectors/Facets |  |".
Proof.
  split; [|split; by_evaluation].
  unfold header_line, row_line.
  change (str "| Selectors/Facets | ")
    with (str "| " ++ str "Selectors/Facets" ++ str " | ").
  destruct impls as [|x impls]; cbn [join];
    by rewrite <- ?(assoc_L (++)), ?(right_id_L [] (++)).
Qed.


(** ** The separator row *)

Lemma join_cons_cons (sep p q : pystr) (rest : list pystr) :
  join sep (p :: q :: rest) = p ++ sep ++ join sep (q :: rest).
Proof. done. Qed.

Lemma dashes_chars (g : pystr) :
  Forall (λ c, c = 45%N) g →
  Forall (λ c, c = 45%N ∨ c = 124%N) g
  ∧ filter (λ c, c = 124%N) g = []
  ∧ filter (λ c, c = 45%N) g = g.
Proof.
  induction 1 as [|c g -> _ (IH1 & IH2 & IH3)]; [done|].
  split; [constructor; [by left|done]|].
  rewrite filter_cons_False by done.
  by rewrite filter_cons_True, IH3.
Qed.

Lemma join_dashes_chars (groups : list pystr) (g : pystr) :
  Forall (λ g, Forall (λ c, c = 45%N) g) (g :: groups) →
  Forall (λ c, c = 45%N ∨ c = 124%N) (join [124%N] (g :: groups))
  ∧ length (filter (λ c, c = 124%N) (join [124%N] (g :: groups)))
    = length groups
  ∧ length (filter (λ c, c = 45%N) (join [124%N] (g :: groups)))
    = (length g + sum_list (length <$> groups))%nat.
Proof.
  revert g. induction groups as [|g' groups IH]; intros g Hall;
    apply Forall_cons in Hall as [Hg Hall];
    destruct (dashes_chars g Hg) as (Hg1 & Hg2 & Hg3).
  - change (join [124%N] [g]) with g. rewrite Hg2, Hg3. simpl.
    split; [done|]. split; [done|lia].
  - rewrite join_cons_cons. destruct (IH g' Hall) as (IH1 & IH2 & IH3).
    rewrite !filter_app, Hg2, Hg3, !length_app, IH2, IH3.
    rewrite filter_cons_True by done.
    rewrite (filter_cons_False (λ c, c = 45%N)) by done.
    rewrite !filter_nil. csimpl. split; [|lia].
    apply Forall_app. split; [done|]. constructor; [by right|done].
Qed.

(** X15.  The separator row is made of bars and dashes only: two bars
    more than there are implementation columns, and as many dashes as
    the title of the first column and the implementation names have
    characters. *)
Theorem X15_separator_row (impls : list pystr) :
  Forall (λ c, c = 45%N ∨ c = 124%N) (separator_line impls)
  ∧ length (filter (λ c, c = 124%N) (separator_line impls))
    = (2 + length impls)%nat
  ∧ length (filter (λ c, c = 45%N) (separator_line impls))
    = (16 + sum_list (length <$> impls))%nat.
Proof.
  unfold separator_line.
  change (str "|") with [124%N].
  change (map ?f (?h :: ?l)) with (f h :: (f <$> l)).
  destruct (join_dashes_chars
              ((λ h : pystr, repeat_char 45%N (length h)) <$> impls)
              (repeat_char 45%N (length (str "Selectors/Facets"))))
    as (H1 & H2 & H3).
  { apply Forall_forall. intros g Hg. apply Forall_forall. intros c Hc.
    apply elem_of_cons in Hg as [->|Hg].
    - by apply elem_of_replicate in Hc as [-> _].
    - apply list_elem_of_fmap in Hg as (h & -> & _).
      by apply elem_of_replicate in Hc as [-> _]. }
  split; [|split].
  - apply Forall_app. split; [constructor; [by right|done]|].
    apply Forall_app. split; [done|]. constructor; [by right|done].
  - rewrite !filter_app, !length_app, H2, length_fmap.
    rewrite filter_cons_True by done. simpl. lia.
  - rewrite !filter_app, !length_app, H3.
    rewrite (filter_cons_False (λ c, c = 45%N)) by done. rewrite filter_nil.
    rewrite <- list_fmap_compose. unfold repeat_char at 1.
    rewrite length_replicate. simpl length.
    replace (sum_list ((length ∘ (λ h : pystr, repeat_char 45%N (length h)))
                         <$> impls))
      with (sum_list (length <$> impls)); [lia|].
    clear H1 H2 H3. induction impls as [|h impls IH]; [done|]. csimpl.
    unfold repeat_char at 1. by rewrite length_replicate, IH.
Qed.

(** ** More rows *)

(** X16.  Rows added at the end of a file take nothing away: every
    column and every data row of the shorter file is still there, and a
    tuple that none of the added rows measures keeps its measurement. *)
Theorem X16_added_rows (parse_int : pystr → option Z)
    (fieldnames : csv_line) (rows added : list csv_line)
    (data data' : data_dict) :
  ingest parse_int (fieldnames :: rows) = Ok data →
  ingest parse_int (fieldnames :: rows ++ added) = Ok data' →
  impl_set data ⊆ impl_set data'
  ∧ (∀ (fname : pystr) (k : Z * Z),
       is_Some (rows_of data fname !! k) →
       is_Some (rows_of data' fname !! k))
  ∧ ∃ more : list record,
      read_records parse_int (fieldnames :: added) = Ok more
      ∧ ∀ (f : option pystr) (k : Z * Z) (i : option pystr),
          Forall (λ r, ¬ (rec_func r = f ∧ rec_key r = k ∧ rec_impl r = i))
            more →
          stored data' f k i = stored data f k i.
Proof.
  intros (recs & Hrecs & ->)%ingest_ok_records
         (recs' & Hrecs' & ->)%ingest_ok_records.
  unfold read_records in *.
  rewrite DictReader_app, parse_rows_app, Hrecs in Hrecs'.
  unfold mbind, res_bind in Hrecs'.
  destruct (parse_rows parse_int (DictReader (fieldnames :: added)))
    as [more|] eqn:Hmore; [|done].
  injection Hrecs' as <-.
  split; [|split].
  - intros i. rewrite !elem_of_impl_set_aggregate.
    intros (r & Hr & Hi). exists r. split; [|done].
    apply elem_of_app. by left.
  - intros fname k. rewrite !rows_of_lookup.
    unfold aggregate. rewrite fold_left_app. apply bucket_fold_keeps.
  - exists more. split; [done|]. intros f k i Hskip.
    unfold aggregate. rewrite fold_left_app. by apply stored_fold_skip.
Qed.

Lemma X16_added_rows_witness :
  ingest int_ascii (header :: tail two_impls) = Ok (aggregate [recA; recB])
  ∧ ingest int_ascii (header :: tail two_impls ++ drop 3 with_unknown)
    = Ok (aggregate [recA; recB; recZ])
  ∧ impl_set (aggregate [recA; recB])
    ⊆ impl_set (aggregate [recA; recB; recZ]).
Proof.
  assert (ingest int_ascii (header :: tail two_impls)
          = Ok (aggregate [recA; recB])) as H1 by by_evaluation.
  assert (ingest int_ascii (header :: tail two_impls
                              ++ drop 3 with_unknown)
          = Ok (aggregate [recA; recB; recZ])) as H2 by by_evaluation.
  split; [exact H1|]. split; [exact H2|].
  exact (proj1 (X16_added_rows int_ascii header (tail two_impls)
                  (drop 3 with_unknown) _ _ H1 H2)).
Defined.

(** ** A name that the header repeats *)

Lemma fold_insert_last (fieldnames : list pystr) (line : csv_line)
    (d : row_dict) (i : nat) (name : pystr) :
  fieldnames !! i = Some name →
  name ∉ drop (S i) fieldnames →
  fold_left (λ d kv, <[kv.1 := kv.2]> d) (zip_fields fieldnames line) d
    !! name = Some (line !! i).
Proof.
  revert line d i. induction fieldnames as [|k ks IH]; intros line d i;
    [done|].
  intros Hi Hlater. destruct i as [|i]; simpl in Hi.
  - injection Hi as ->. simpl in Hlater.
    destruct line as [|v vs]; simpl;
      (rewrite fold_insert_other by (by rewrite zip_fields_names));
      by rewrite lookup_insert_eq.
  - destruct line as [|v vs]; simpl.
    + by rewrite (IH [] _ i Hi Hlater).
    + by rewrite (IH vs _ i Hi Hlater).
Qed.

(** X17.  When the header has a name more than once, the reader keeps
    the field of the last column of that name: a lookup by a name gives
    the field at the last place of the name, and [None] when the row ends
    before that place. *)
Theorem X17_repeated_name_last_column (fieldnames : list pystr)
    (line : csv_line) (i : nat) (name : pystr) :
  fieldnames !! i = Some name →
  name ∉ drop (S i) fieldnames →
  getitem (make_row fieldnames line) name = Ok (line !! i).
Proof.
  intros Hi Hlater. unfold getitem, make_row.
  by rewrite (fold_insert_last fieldnames line ∅ i name Hi Hlater).
Qed.

Lemma X17_repeated_name_last_column_witness :
  repeated_gas !! 5%nat = Some (str "GasUsed")
  ∧ (str "GasUsed" ∉ drop 6 repeated_gas)
  ∧ getitem (make_row repeated_gas
               [str "ImplA"; str "facets()"; str "2"; str "5"; str "100";
                str "200"])
      (str "GasUsed")
    = Ok (Some (str "200")).
Proof.
  assert (repeated_gas !! 5%nat = Some (str "GasUsed")) as H1
    by by_evaluation.
  assert (str "GasUsed" ∉ drop 6 repeated_gas) as H2
    by (change (drop 6 repeated_gas) with (@nil pystr);
        apply not_elem_of_nil).
  split; [exact H1|]. split; [exact H2|].
  exact (X17_repeated_name_last_column repeated_gas
           [str "ImplA"; str "facets()"; str "2"; str "5"; str "100";
            str "200"] 5 (str "GasUsed") H1 H2).
Defined.

(** ** What an exception of the loop tells *)

Lemma elem_of_DictReader_inv (fieldnames : csv_line) (rest : list csv_line)
    (row : row_dict) :
  row ∈ DictReader (fieldnames :: rest) →
  ∃ line, line ∈ rest ∧ line ≠ [] ∧ row = make_row fieldnames line.
Proof.
  unfold DictReader. intros (line & -> & Hin)%list_elem_of_fmap.
  apply list_elem_of_In, filter_In in Hin as [Hin Hnb].
  exists line. split; [by apply list_elem_of_In|]. split; [|done].
  by intros ->.
Qed.

Lemma int_Raise (parse_int : pystr → option Z) (v : option pystr) (e : exn) :
  int parse_int v = Raise e →
  (e = TypeError ∧ v = None)
  ∨ (e = ValueError ∧ ∃ s, v = Some s ∧ parse_int s = None).
Proof.
  unfold int. destruct v as [s|].
  - destruct (parse_int s) eqn:E; [done|]. intros [= <-]. right. eauto.
  - intros [= <-]. by left.
Qed.

Lemma parse_row_Raise (parse_int : pystr → option Z) (row : row_dict)
    (e : exn) :
  parse_row parse_int row = Raise e →
  (e = KeyError ∧ ∃ name, name ∈ header ∧ row !! name = None)
  ∨ (∃ name,
       name ∈ [str "Facets"; str "Selectors"; str "GasUsed"]
       ∧ ((e = TypeError ∧ row !! name = Some None)
          ∨ (e = ValueError
             ∧ ∃ s, row !! name = Some (Some s) ∧ parse_int s = None))).
Proof.
  assert (∀ name v, row !! name = Some v → int parse_int v = Raise e →
            (e = TypeError ∧ row !! name = Some None)
            ∨ (e = ValueError
               ∧ ∃ s, row !! name = Some (Some s) ∧ parse_int s = None))
    as Hint.
  { intros name v Hv [[-> ->]|(-> & s & -> & Hs)]%int_Raise;
      [by left|right; eauto]. }
  unfold parse_row, mbind, res_bind, getitem.
  destruct (row !! str "Implementation") as [impl|] eqn:E1;
    [|intros [= <-]; left; split; [done|];
      exists (str "Implementation"); split; [by_decision|done]].
  destruct (row !! str "Function") as [func|] eqn:E2;
    [|intros [= <-]; left; split; [done|];
      exists (str "Function"); split; [by_decision|done]].
  destruct (row !! str "Facets") as [fa|] eqn:E3;
    [|intros [= <-]; left; split; [done|];
      exists (str "Facets"); split; [by_decision|done]].
  destruct (int parse_int fa) as [facets|e3] eqn:I3;
    [|intros [= <-]; right; exists (str "Facets");
      split; [by_decision|by apply (Hint _ fa)]].
  destruct (row !! str "Selectors") as [se|] eqn:E4;
    [|intros [= <-]; left; split; [done|];
      exists (str "Selectors"); split; [by_decision|done]].
  destruct (int parse_int se) as [selectors|e4] eqn:I4;
    [|intros [= <-]; right; exists (str "Selectors");
      split; [by_decision|by apply (Hint _ se)]].
  destruct (row !! str "GasUsed") as [ga|] eqn:E5;
    [|intros [= <-]; left; split; [done|];
      exists (str "GasUsed"); split; [by_decision|done]].
  destruct (int parse_int ga) as [gas|e5] eqn:I5; [done|].
  intros [= <-]. right. exists (str "GasUsed").
  split; [by_decision|by apply (Hint _ ga)].
Qed.

(** X18.  The exception that ends the loop tells what was wrong with a
    row of the file that is not a blank line: [KeyError], the header
    lacks one of the five names; [TypeError], the row ends before its
    Facets, Selectors or GasUsed column; [ValueError], one of these three
    fields is there and is not a numeral. *)
Theorem X18_exception_cause (parse_int : pystr → option Z)
    (fieldnames : csv_line) (rest : list csv_line) (e : exn) :
  ingest parse_int (fieldnames :: rest) = Raise e →
  ∃ line, line ∈ rest ∧ line ≠ [] ∧
    match e with
    | KeyError => ∃ name, name ∈ header ∧ name ∉ fieldnames
    | TypeError =>
        ∃ name, name ∈ [str "Facets"; str "Selectors"; str "GasUsed"]
                ∧ make_row fieldnames line !! name = Some None
    | ValueError =>
        ∃ name s, name ∈ [str "Facets"; str "Selectors"; str "GasUsed"]
                  ∧ make_row fieldnames line !! name = Some (Some s)
                  ∧ parse_int s = None
    end.
Proof.
  unfold ingest. rewrite ingest_from_records. unfold mbind, res_bind.
  destruct (parse_rows parse_int (DictReader (fieldnames :: rest)))
    as [recs|e'] eqn:Hrows; [done|].
  intros [= ->].
  apply parse_rows_Raise in Hrows as (row & Hrow & Hraise).
  apply elem_of_DictReader_inv in Hrow as (line & Hin & Hne & ->).
  exists line. split; [done|]. split; [done|].
  apply parse_row_Raise in Hraise
    as [(-> & name & Hname & Hnone)
       |(name & Hname & [[-> Hv]|(-> & s & Hv & Hs)])].
  - exists name. split; [done|]. by apply (make_row_None fieldnames line).
  - by exists name.
  - by exists name, s.
Qed.

Lemma X18_exception_cause_witness :
  ingest int_ascii bad_gas = Raise ValueError
  ∧ ∃ line, line ∈ tail bad_gas ∧ line ≠ [] ∧
      ∃ name s, name ∈ [str "Facets"; str "Selectors"; str "GasUsed"]
                ∧ make_row header line !! name = Some (Some s)
                ∧ int_ascii s = None.
Proof.
  assert (ingest int_ascii bad_gas = Raise ValueError) as H
    by by_evaluation.
  split; [exact H|].
  exact (X18_exception_cause int_ascii header (tail bad_gas) ValueError H).
Defined.
